(** * Stashboard: the inventory ledger and allocation engine of [App.py]

    A shallow embedding of the database handler of the stock-management
    application ([DatabaseHandler]) and of the bill generation of
    [StockManagementApp], followed by the properties of the FIFO
    allocator, the invoice sequencer, the tax computation and the batch
    store.

    Conventions of the embedding:
    - Python [int] and SQLite [INTEGER] are [Z] (values are taken inside
      SQLite's 64-bit range, where both agree);
    - Python [float] and SQLite [REAL] are IEEE-754 binary64, Rocq's
      primitive [float];
    - Python [str] and SQLite [TEXT] are [string], restricted to ASCII;
    - a table with an [INTEGER PRIMARY KEY] is a [gmap] from the key to
      the remaining columns, a table without one is a list of rows in
      insertion order;
    - the single shared [sqlite3] connection is a record of the durable
      database and of the pending transaction, and every handler method is
      a computation in a state-and-exception monad over it. *)

From Stdlib Require Import ZArith String Ascii QArith OrderedTypeEx.
From Stdlib Require Import Floats.PrimFloat Numbers.Cyclic.Int63.Uint63.
From stdpp Require Import gmap strings list fin_maps sorting pretty.

Local Open Scope string_scope.
Local Open Scope Z_scope.

(** ** Strings, as Python and SQLite treat them *)

Module Str.

Definition is_upper (c : ascii) : bool :=
  let n := nat_of_ascii c in (65 <=? n)%nat && (n <=? 90)%nat.

Definition is_lower (c : ascii) : bool :=
  let n := nat_of_ascii c in (97 <=? n)%nat && (n <=? 122)%nat.

Definition lower_char (c : ascii) : ascii :=
  if is_upper c then ascii_of_nat (nat_of_ascii c + 32) else c.

Definition upper_char (c : ascii) : ascii :=
  if is_lower c then ascii_of_nat (nat_of_ascii c - 32) else c.

(** [str.lower()] and [str.upper()]. *)
Fixpoint lower (s : string) : string :=
  match s with
  | EmptyString => EmptyString
  | String c s' => String (lower_char c) (lower s')
  end.

Fixpoint upper (s : string) : string :=
  match s with
  | EmptyString => EmptyString
  | String c s' => String (upper_char c) (upper s')
  end.

(** The characters [str.split()] without argument treats as separators. *)
Definition is_space (c : ascii) : bool :=
  let n := nat_of_ascii c in
  (n =? 32)%nat || ((9 <=? n)%nat && (n <=? 13)%nat)
  || ((28 <=? n)%nat && (n <=? 31)%nat).

(** [split_go cur s]: [cur] is the word being read, reversed. *)
Fixpoint split_go (cur : list ascii) (s : string) : list string :=
  let flush :=
    match cur with
    | [] => []
    | _ => [string_of_list_ascii (rev cur)]
    end in
  match s with
  | EmptyString => flush
  | String c s' =>
      if is_space c then (flush ++ split_go [] s')%list
      else split_go (c :: cur) s'
  end.

(** [s.split()]. *)
Definition split (s : string) : list string := split_go [] s.

(** [sep.join(words)]. *)
Fixpoint join (sep : string) (words : list string) : string :=
  match words with
  | [] => ""
  | [w] => w
  | w :: ws => w +:+ sep +:+ join sep ws
  end.

(** SQLite's [COLLATE NOCASE] comparison: the 26 upper-case ASCII letters
    are folded to lower case before the bytes are compared. *)
Definition nocase_eqb (a b : string) : bool := String.eqb (lower a) (lower b).

End Str.

(** [to_sentence_case(text)]. *)
Definition to_sentence_case (text : string) : string :=
  match text with
  | EmptyString => text
  | String c rest => String (Str.upper_char c) (Str.lower rest)
  end.

(** [format_name(name)]. *)
Definition format_name (name : string) : string :=
  match name with
  | EmptyString => name
  | _ => Str.join " " (to_sentence_case <$> Str.split name)
  end.

(** ** Numbers *)

(** The conversion Python applies to an [int] operand of a [float]
    operation: round to nearest even, exact up to [2^53]. The definition
    covers the integers of absolute value below [2^63]. *)
Definition float_of_Z (z : Z) : float :=
  if (0 <=? z)%Z then PrimFloat.of_uint63 (Uint63.of_Z z)
  else PrimFloat.opp (PrimFloat.of_uint63 (Uint63.of_Z (- z))).

(** [sum(...)] over integers. *)
Definition sumZ (l : list Z) : Z := foldr Z.add 0 l.

(** ** The schema ([setup_database]) *)

(** [companies (id INTEGER PRIMARY KEY, name, gst_number, contact)]. *)
Record company := {
  c_name : string;
  c_gst_number : string;
  c_contact : string }.

(** [products]: one row per purchase batch, keyed by [id]. The column
    [quantity] is the remaining quantity of the batch. *)
Record product := {
  company_id : option Z;
  brand : string;
  product_name : string;
  original_quantity : Z;
  quantity : Z;
  unit_price : float;
  cgst : float;
  sgst : float;
  cess : float;
  purchase_date : string;
  company_invoice : option string;
  is_current : Z }.

(** [settings (year INTEGER PRIMARY KEY, last_invoice_number,
    low_stock_threshold)]. *)
Record setting := {
  last_invoice_number : Z;
  low_stock_threshold : Z }.

(** [billing (bill_number INTEGER PRIMARY KEY, customer_name,
    total_amount, bill_date)]. *)
Record bill := {
  customer_name : string;
  total_amount : float;
  bill_date : string }.

(** [bill_items (id AUTOINCREMENT, bill_number REFERENCES billing,
    product_name, quantity, unit_price)]. *)
Record bill_item := {
  bi_bill_number : Z;
  bi_product_name : string;
  bi_quantity : Z;
  bi_unit_price : float }.

Record database := {
  companies : gmap Z company;
  products : gmap Z product;
  settings : gmap Z setting;
  billing : gmap Z bill;
  bill_items : list bill_item }.

Definition set_products (f : gmap Z product → gmap Z product) (d : database) : database :=
  {| companies := companies d; products := f (products d);
     settings := settings d; billing := billing d;
     bill_items := bill_items d |}.

Definition set_settings (f : gmap Z setting → gmap Z setting) (d : database) : database :=
  {| companies := companies d; products := products d;
     settings := f (settings d); billing := billing d;
     bill_items := bill_items d |}.

Definition set_billing (f : gmap Z bill → gmap Z bill) (d : database) : database :=
  {| companies := companies d; products := products d;
     settings := settings d; billing := f (billing d);
     bill_items := bill_items d |}.

Definition set_bill_items (f : list bill_item → list bill_item) (d : database) : database :=
  {| companies := companies d; products := products d;
     settings := settings d; billing := billing d;
     bill_items := f (bill_items d) |}.

Definition empty_database : database :=
  {| companies := ∅; products := ∅; settings := ∅; billing := ∅;
     bill_items := [] |}.

(** ** The connection and the monad of handler methods *)

(** The exceptions the modelled code raises or lets through. *)
Inductive exception :=
| ValueError (msg : string)
| IntegrityError (msg : string)
| OperationalError (msg : string).

Inductive result (A : Type) :=
| Ok (a : A)
| Raise (e : exception).
Arguments Ok {A} a.
Arguments Raise {A} e.

(** [DatabaseHandler.connection]: what has been committed, and the
    database as the open transaction sees it, if one is open. *)
Record connection := {
  durable : database;
  txn : option database }.

(** The database a statement executed on the connection reads. *)
Definition view (c : connection) : database := default (durable c) (txn c).

(** A connection with no transaction open. *)
Definition idle (d : database) : connection := {| durable := d; txn := None |}.

Definition DB (A : Type) : Type := connection → result A * connection.

#[global] Instance DB_ret : MRet DB := λ A a c, (Ok a, c).

#[global] Instance DB_bind : MBind DB := λ A B f m c,
  match m c with
  | (Ok a, c') => f a c'
  | (Raise e, c') => (Raise e, c')
  end.

Definition raise {A} (e : exception) : DB A := λ c, (Raise e, c).

(** [try: body except Exception as e: handler]. *)
Definition try_except {A} (body : DB A) (handler : exception → DB A) : DB A := λ c,
  match body c with
  | (Ok a, c') => (Ok a, c')
  | (Raise e, c') => handler e c'
  end.

(** [cursor.execute] of a [SELECT]. *)
Definition query {A} (q : database → A) : DB A := λ c, (Ok (q (view c)), c).

(** [cursor.execute] of an [INSERT] or [UPDATE]: the [sqlite3] module opens
    a transaction first when none is open; a statement that violates a
    constraint raises and changes no row. *)
Definition execute (stmt : database → result database) : DB unit := λ c,
  match stmt (view c) with
  | Ok d' => (Ok (), {| durable := durable c; txn := Some d' |})
  | Raise e => (Raise e, {| durable := durable c; txn := Some (view c) |})
  end.

(** [cursor.execute("BEGIN IMMEDIATE TRANSACTION")]. *)
Definition begin_immediate : DB unit := λ c,
  match txn c with
  | Some _ =>
      (Raise (OperationalError "cannot start a transaction within a transaction"), c)
  | None => (Ok (), {| durable := durable c; txn := Some (durable c) |})
  end.

(** [connection.commit()] and [connection.rollback()]. *)
Definition commit : DB unit := λ c, (Ok (), idle (view c)).
Definition rollback : DB unit := λ c, (Ok (), idle (durable c)).

(** ** The SQL engine's [ORDER BY]

    The queries of the allocator order the batches by [purchase_date]
    alone. SQL fixes the result of such a query up to the order of the rows
    whose keys compare equal; the engine is therefore an interface, and
    what is stated with an engine as a parameter holds for each of its
    implementations. The order among batches of one date is stated for
    the engine the program runs on. *)

(** [TEXT] values compare bytewise. *)
Definition date_lt (a b : string) : Prop := String.compare a b = Lt.
Definition date_le (a b : string) : Prop := String.compare a b ≠ Gt.

Definition row_date_le (x y : Z * product) : Prop :=
  date_le (purchase_date x.2) (purchase_date y.2).

Class SqlEngine := {
  order_by_purchase_date : list (Z * product) → list (Z * product);
  order_by_Permutation l : order_by_purchase_date l ≡ₚ l;
  order_by_Sorted l : Sorted row_date_le (order_by_purchase_date l) }.

(** [WHERE product_name = ?] on a [COLLATE NOCASE] column. *)
Definition is_product (name : string) (r : product) : bool :=
  Str.nocase_eqb (product_name r) name.

(** [WHERE product_name = ? AND quantity > 0]. *)
Definition in_stock (name : string) (ir : Z * product) : bool :=
  is_product name ir.2 && (0 <? quantity ir.2).

Section Handler.
Context `{!SqlEngine}.

(** The rows of
    [SELECT ... FROM products WHERE product_name = ? AND quantity > 0
     ORDER BY purchase_date ASC]. *)
Definition stock_rows (name : string) (d : database) : list (Z * product) :=
  order_by_purchase_date (filter (λ ir, Is_true (in_stock name ir)) (map_to_list (products d))).

(** The same query projected on [id, quantity], as [update_stock] runs it. *)
Definition select_batches (name : string) (d : database) : list (Z * Z) :=
  (λ ir, (ir.1, quantity ir.2)) <$> stock_rows name d.

(** [UPDATE products SET quantity = quantity - ? WHERE id = ?]. *)
Definition decrement (deduct : Z) (r : product) : product :=
  {| company_id := company_id r; brand := brand r;
     product_name := product_name r;
     original_quantity := original_quantity r;
     quantity := quantity r - deduct;
     unit_price := unit_price r; cgst := cgst r; sgst := sgst r;
     cess := cess r; purchase_date := purchase_date r;
     company_invoice := company_invoice r; is_current := is_current r |}.

Definition update_quantity (id deduct : Z) (d : database) : result database :=
  Ok (set_products (alter (decrement deduct) id) d).

(** The loop [for batch in batches] of [update_stock]; it returns the
    final value of [remaining]. *)
Fixpoint deduct_loop (batches : list (Z * Z)) (remaining : Z) : DB Z :=
  match batches with
  | [] => mret remaining
  | batch :: rest =>
      if remaining <=? 0 then mret remaining
      else
        let deduct := Z.min remaining batch.2 in
        _ ← execute (update_quantity batch.1 deduct);
        deduct_loop rest (remaining - deduct)
  end.

Definition insufficient_stock (total_available quantity : Z) : string :=
  "Insufficient stock. Available: " +:+ pretty total_available
    +:+ ", Requested: " +:+ pretty quantity.

(** [DatabaseHandler.update_stock]. *)
Definition update_stock (product_name : string) (quantity : Z) : DB unit :=
  try_except
    (_ ← begin_immediate;
     batches ← query (select_batches product_name);
     let total_available := sumZ batches.*2 in
     if total_available <? quantity then
       _ ← rollback;
       raise (ValueError (insufficient_stock total_available quantity))
     else
       _ ← deduct_loop batches quantity;
       commit)
    (λ e, _ ← rollback; raise e).

(** [DatabaseHandler.check_current_stock]: the total over every batch of
    the product, whatever its quantity. *)
Definition check_current_stock (name : string) : DB Z :=
  query (λ d,
    let records :=
      order_by_purchase_date
        (filter (λ ir, Is_true (is_product name ir.2)) (map_to_list (products d))) in
    sumZ ((λ ir, quantity ir.2) <$> records)).

(** *** Batch creation *)

(** The id SQLite gives a row inserted without one: one more than the
    largest id in the table, [1] in an empty table. *)
Definition next_rowid {A} (m : gmap Z A) : Z :=
  match (map_to_list m).*1 with
  | [] => 1
  | k :: ks => foldr Z.max k ks + 1
  end.

(** [INSERT INTO products (...) VALUES (...)], under
    [PRAGMA foreign_keys = ON]. The integers bound to the statement and
    the id given to the row are taken inside SQLite's 64-bit range (see
    [sqlite_integer]); a Python [int] outside it cannot be bound. *)
Definition insert_product (r : product) (d : database) : result database :=
  let inserted := set_products (insert (next_rowid (products d)) r) d in
  match company_id r with
  | None => Ok inserted
  | Some cid =>
      match companies d !! cid with
      | Some _ => Ok inserted
      | None => Raise (IntegrityError "FOREIGN KEY constraint failed")
      end
  end.

(** [DatabaseHandler.add_product]. The function [update_product_quantity]
    that the source nests inside it is defined after the commit and never
    called. *)
Definition add_product (company_id : option Z) (brand product_name : string)
    (quantity : Z) (unit_price cgst sgst cess : float)
    (purchase_date : string) (company_invoice : option string) : DB unit :=
  let brand := format_name brand in
  let product_name := format_name product_name in
  _ ← execute (insert_product
         {| company_id := company_id; brand := brand;
            product_name := product_name;
            original_quantity := quantity; quantity := quantity;
            unit_price := unit_price; cgst := cgst; sgst := sgst;
            cess := cess; purchase_date := purchase_date;
            company_invoice := company_invoice; is_current := 1 |});
  commit.

(** *** Billing rows *)

Definition insert_bill (bill_number : Z) (b : bill) (d : database) : result database :=
  match billing d !! bill_number with
  | Some _ => Raise (IntegrityError "UNIQUE constraint failed: billing.bill_number")
  | None => Ok (set_billing (insert bill_number b) d)
  end.

(** [DatabaseHandler.create_bill]. *)
Definition create_bill (bill_number : Z) (customer_name : string)
    (total_amount : float) (bill_date : string) : DB unit :=
  _ ← execute (insert_bill bill_number
         {| customer_name := customer_name; total_amount := total_amount;
            bill_date := bill_date |});
  commit.

Definition insert_bill_item (it : bill_item) (d : database) : result database :=
  match billing d !! bi_bill_number it with
  | Some _ => Ok (set_bill_items (λ l, (l ++ [it])%list) d)
  | None => Raise (IntegrityError "FOREIGN KEY constraint failed")
  end.

(** [DatabaseHandler.add_bill_item]. *)
Definition add_bill_item (bill_number : Z) (product_name : string)
    (quantity : Z) (unit_price : float) : DB unit :=
  _ ← execute (insert_bill_item
         {| bi_bill_number := bill_number; bi_product_name := product_name;
            bi_quantity := quantity; bi_unit_price := unit_price |});
  commit.

End Handler.

(** ** The invoice sequencer *)

(** The fields of [datetime.now()] the sequencer reads. *)
Record datetime := {
  dt_year : Z;
  dt_month : Z;
  dt_day : Z }.

(** [INSERT INTO settings (year, last_invoice_number) VALUES (?, ?)]; the
    column [low_stock_threshold] takes its default. *)
Definition insert_setting (year n : Z) (d : database) : result database :=
  match settings d !! year with
  | Some _ => Raise (IntegrityError "UNIQUE constraint failed: settings.year")
  | None =>
      Ok (set_settings
            (insert year {| last_invoice_number := n; low_stock_threshold := 5 |}) d)
  end.

(** [UPDATE settings SET last_invoice_number=? WHERE year=?]. *)
Definition update_last_invoice_number (n year : Z) (d : database) : result database :=
  Ok (set_settings
        (alter (λ s, {| last_invoice_number := n;
                        low_stock_threshold := low_stock_threshold s |}) year) d).

(** [DatabaseHandler.get_invoice_number]. The method reads the clock three
    times: [now_y] for the year, [now_m] for the month and [now_d] for the
    day of the reset test. *)
Definition get_invoice_number (now_y now_m now_d : datetime) : DB Z :=
  let current_year := dt_year now_y in
  result ← query (λ d, last_invoice_number <$> settings d !! current_year);
  last_invoice_number ←
    match result with
    | None =>
        _ ← execute (insert_setting current_year 0);
        _ ← commit;
        mret 0
    | Some n => mret n
    end;
  let new_invoice_number := last_invoice_number + 1 in
  let new_invoice_number :=
    if (dt_month now_m =? 4) && (dt_day now_d =? 1) then 1
    else new_invoice_number in
  _ ← execute (update_last_invoice_number new_invoice_number current_year);
  _ ← commit;
  mret new_invoice_number.

(** [n] calls one after the other, each with its own clock readings. *)
Fixpoint get_invoice_numbers (calls : list (datetime * datetime * datetime)) : DB (list Z) :=
  match calls with
  | [] => mret []
  | (now_y, now_m, now_d) :: rest =>
      n ← get_invoice_number now_y now_m now_d;
      ns ← get_invoice_numbers rest;
      mret (n :: ns)
  end.

(** ** The tax computation of a sale

    The arithmetic is written once over the operations it uses. The
    program runs it on [float]; the instance on [Q] is the same
    computation without rounding. *)

Class Arith (R : Type) := {
  radd : R → R → R;
  rmul : R → R → R;
  rdiv : R → R → R;
  of_int : Z → R }.

#[global] Instance float_Arith : Arith float :=
  {| radd := PrimFloat.add; rmul := PrimFloat.mul; rdiv := PrimFloat.div;
     of_int := float_of_Z |}.

#[global] Instance Q_Arith : Arith Q :=
  {| radd := Qplus; rmul := Qmult; rdiv := Qdiv; of_int := inject_Z |}.

(** An entry of [temp_products], the cart. It carries the two rates
    [add_billing_item] read from the stock, and no CESS rate. *)
Record cart_item (R : Type) := {
  ci_product_name : string;
  ci_quantity : Z;
  ci_unit_price : R;
  ci_cgst : R;
  ci_sgst : R }.
Arguments ci_product_name {R} _.
Arguments ci_quantity {R} _.
Arguments ci_unit_price {R} _.
Arguments ci_cgst {R} _.
Arguments ci_sgst {R} _.

(** The amounts [add_billing_item] shows for a line. *)
Record line_amounts (R : Type) := {
  la_base : R;
  la_cgst_amount : R;
  la_sgst_amount : R;
  la_item_total : R }.
Arguments la_base {R} _.
Arguments la_cgst_amount {R} _.
Arguments la_sgst_amount {R} _.
Arguments la_item_total {R} _.

Section Tax.
Context {R : Type} `{!Arith R}.

(** [add_billing_item], "Calculate taxes and total". *)
Definition add_billing_item_amounts (quantity : Z) (price cgst sgst : R) : line_amounts R :=
  let cgst_amount := rmul (rmul price (of_int quantity)) (rdiv cgst (of_int 100)) in
  let sgst_amount := rmul (rmul price (of_int quantity)) (rdiv sgst (of_int 100)) in
  let item_total := radd (radd (rmul price (of_int quantity)) cgst_amount) sgst_amount in
  {| la_base := rmul price (of_int quantity);
     la_cgst_amount := cgst_amount;
     la_sgst_amount := sgst_amount;
     la_item_total := item_total |}.

(** [generate_bill], "Calculate total from items": one item. *)
Definition item_total (item : cart_item R) : R :=
  let item_value := rmul (of_int (ci_quantity item)) (ci_unit_price item) in
  rmul item_value
    (radd (of_int 1) (rdiv (radd (ci_cgst item) (ci_sgst item)) (of_int 100))).

(** The accumulation [total_amount += item_total], from [acc]. *)
Definition accumulate_total (acc : R) (temp_products : list (cart_item R)) : R :=
  fold_left (λ total_amount item, radd total_amount (item_total item)) temp_products acc.

End Tax.

(** [total_amount = 0.0] followed by the accumulation. *)
Definition bill_total_amount (temp_products : list (cart_item float)) : float :=
  accumulate_total 0%float temp_products.

(** ** Bill generation *)

(** What [generate_bill] reports to the user: it catches every exception
    and returns nothing. *)
Inductive bill_outcome :=
| NoItemsToBill
| NoCustomerSelected
| BillGenerated (invoice_number : Z)
| BillFailed (e : exception).

Section Billing.
Context `{!SqlEngine}.

(** The body of the loop "Save bill items and update stock". *)
Definition process_item (invoice_number : Z) (item : cart_item float) : DB unit :=
  let product_name := ci_product_name item in
  stock_records ← query (stock_rows product_name);
  let total_stock := sumZ ((λ ir, quantity ir.2) <$> stock_records) in
  let quantity := ci_quantity item in
  if total_stock <? quantity then
    raise (ValueError ("Insufficient stock for " +:+ product_name))
  else
    _ ← add_bill_item invoice_number product_name quantity (ci_unit_price item);
    update_stock product_name quantity.

Fixpoint process_items (invoice_number : Z) (items : list (cart_item float)) : DB unit :=
  match items with
  | [] => mret ()
  | item :: rest =>
      _ ← process_item invoice_number item;
      process_items invoice_number rest
  end.

(** The logging loop that opens [generate_bill]. *)
Fixpoint check_stock_levels (items : list (cart_item float)) : DB unit :=
  match items with
  | [] => mret ()
  | item :: rest =>
      _ ← check_current_stock (ci_product_name item);
      check_stock_levels rest
  end.

(** The part of [generate_bill] that touches the database, once the
    cart and the customer have been checked. *)
Definition save_bill (temp_products : list (cart_item float))
    (customer_name : string) (now_y now_m now_d : datetime)
    (bill_date : string) : DB Z :=
  invoice_number ← get_invoice_number now_y now_m now_d;
  let total_amount := bill_total_amount temp_products in
  _ ← create_bill invoice_number customer_name total_amount bill_date;
  _ ← process_items invoice_number temp_products;
  mret invoice_number.

(** [StockManagementApp.generate_bill]. *)
Definition generate_bill (temp_products : list (cart_item float))
    (customer_name : string) (now_y now_m now_d : datetime)
    (bill_date : string) (c : connection) : bill_outcome * connection :=
  match check_stock_levels temp_products c with
  | (Raise e, c') => (BillFailed e, c')
  | (Ok _, c') =>
      match temp_products with
      | [] => (NoItemsToBill, c')
      | _ =>
          if String.eqb customer_name "" then (NoCustomerSelected, c')
          else
            match save_bill temp_products customer_name now_y now_m now_d bill_date c' with
            | (Ok invoice_number, c'') => (BillGenerated invoice_number, c'')
            | (Raise e, c'') => (BillFailed e, c'')
            end
      end
  end.

End Billing.

(** ** The engine of the program

    The program runs on SQLite. It scans a table with an [INTEGER PRIMARY
    KEY] in ascending key and its sorter keeps rows of equal sort key in
    the order of the scan: the batches come sorted by purchase date and,
    among those of one date, the smallest id first. *)

Definition oldest_id_first (x y : Z * product) : Prop :=
  date_lt (purchase_date x.2) (purchase_date y.2)
  ∨ (purchase_date x.2 = purchase_date y.2 ∧ x.1 ≤ y.1).

#[global] Instance date_lt_dec a b : Decision (date_lt a b).
Proof. unfold date_lt. solve_decision. Defined.

#[global] Instance oldest_id_first_dec x y : Decision (oldest_id_first x y).
Proof. unfold oldest_id_first. solve_decision. Defined.

Lemma compare_Gt_Lt a b : String.compare a b = Gt → String.compare b a = Lt.
Proof. intros H. rewrite String.compare_antisym, H. reflexivity. Qed.

Lemma date_lt_le a b : date_lt a b → date_le a b.
Proof. unfold date_lt, date_le. congruence. Qed.

Lemma date_le_refl a : date_le a a.
Proof.
  unfold date_le. destruct (String.compare a a) eqn:E; try discriminate.
  pose proof (compare_Gt_Lt _ _ E). congruence.
Qed.

Lemma date_lt_trans a b c : date_lt a b → date_lt b c → date_lt a c.
Proof.
  unfold date_lt. rewrite !String_as_OT.cmp_lt. apply String_as_OT.lt_trans.
Qed.

Lemma date_le_cases a b : date_le a b ↔ date_lt a b ∨ a = b.
Proof.
  unfold date_le, date_lt. split.
  - destruct (String.compare a b) eqn:E; intros H.
    + right. by apply String.compare_eq_iff.
    + by left.
    + done.
  - intros [H | ->]; [congruence |]. apply date_le_refl.
Qed.

Lemma date_le_trans a b c : date_le a b → date_le b c → date_le a c.
Proof.
  rewrite !date_le_cases. intros [H1 | ->] [H2 | ->]; eauto using date_lt_trans.
Qed.

Lemma date_lt_irrefl a : ¬ date_lt a a.
Proof.
  unfold date_lt. intros H. pose proof (date_le_refl a) as Hr.
  pose proof (String.compare_antisym a a) as Ha. rewrite H in Ha. discriminate.
Qed.

Lemma date_total a b : date_lt a b ∨ a = b ∨ date_lt b a.
Proof.
  unfold date_lt. destruct (String.compare a b) eqn:E.
  - right; left. by apply String.compare_eq_iff.
  - by left.
  - right; right. by apply compare_Gt_Lt.
Qed.

(** A strictly older row is never placed after a newer one. *)
Lemma date_lt_not_le a b : date_lt a b → ¬ date_le b a.
Proof.
  intros Hlt Hle. apply date_le_cases in Hle as [Hlt' | ->].
  - eapply date_lt_irrefl, date_lt_trans; eauto.
  - by eapply date_lt_irrefl.
Qed.

#[global] Instance row_date_le_trans : Transitive row_date_le.
Proof. intros x y z. apply date_le_trans. Qed.

#[global] Instance oldest_id_first_total : Total oldest_id_first.
Proof.
  intros x y. unfold oldest_id_first.
  destruct (date_total (purchase_date x.2) (purchase_date y.2)) as [H | [H | H]];
    [by left; left | | by right; left].
  destruct (Z.le_ge_cases x.1 y.1); [left | right]; right; split; done.
Qed.

Lemma Sorted_weaken {A} (R1 R2 : relation A) (l : list A) :
  (∀ x y, R1 x y → R2 x y) → Sorted R1 l → Sorted R2 l.
Proof.
  intros Himp. induction 1 as [| x l Hs IH Hhd]; constructor; [done |].
  destruct Hhd; constructor; auto.
Qed.

Lemma oldest_id_first_date x y : oldest_id_first x y → row_date_le x y.
Proof.
  unfold row_date_le. intros [H | [H _]]; apply date_le_cases; auto.
Qed.

Lemma oldest_id_first_Sorted l : Sorted row_date_le (merge_sort oldest_id_first l).
Proof.
  eapply Sorted_weaken; [apply oldest_id_first_date |].
  apply (Sorted_merge_sort oldest_id_first).
Qed.

Definition oldest_id_first_engine : SqlEngine :=
  {| order_by_purchase_date := merge_sort oldest_id_first;
     order_by_Permutation := merge_sort_Permutation oldest_id_first;
     order_by_Sorted := oldest_id_first_Sorted |}.

(** * Vocabulary of the properties

    The quantities, relations and sample data the statements below are
    written with. *)

(** ** Quantities of the batch store *)

(** The sum of the remaining quantity over the batches selected by [P]. *)
Definition batch_sum (P : Z * product → bool) (m : gmap Z product) : Z :=
  sumZ ((λ ir, quantity ir.2) <$> filter (λ ir, Is_true (P ir)) (map_to_list m)).

(** The contribution of one row to a sum. *)
Definition share (P : Z * product → bool) (ir : Z * product) : Z :=
  if P ir then quantity ir.2 else 0.

(** The remaining quantity of a product, over all its batches. *)
Definition stock_of (name : string) (d : database) : Z :=
  batch_sum (λ ir, is_product name ir.2) (products d).

(** The same sum over the batches the allocator fetches, those that still
    hold stock: the [total_available] of [update_stock]. *)
Definition available (name : string) (d : database) : Z :=
  batch_sum (in_stock name) (products d).

(** The remaining quantity of batch [id], [0] for an id that is not there. *)
Definition remaining_of (d : database) (id : Z) : Z :=
  default 0 (quantity <$> products d !! id).

(** What the call took from batch [id]. *)
Definition deduction (before after : database) (id : Z) : Z :=
  remaining_of before id - remaining_of after id.

(** The database with another [products] table. *)
Definition with_products (m : gmap Z product) (d : database) : database :=
  set_products (λ _, m) d.

(** ** The allocation loop *)

(** The effect of [deduct_loop] on the [products] table, as a function. *)
Fixpoint allocate (batches : list (Z * Z)) (remaining : Z) (m : gmap Z product) : Z * gmap Z product :=
  match batches with
  | [] => (remaining, m)
  | batch :: rest =>
      if remaining <=? 0 then (remaining, m)
      else
        let deduct := Z.min remaining batch.2 in
        allocate rest (remaining - deduct) (alter (decrement deduct) batch.1 m)
  end.

(** The database the open transaction of [update_stock] sees once the
    loop has gone through the first [k] fetched batches. *)
Definition loop_state `{!SqlEngine} (name : string) (requested : Z) (d : database) (k : nat) : database :=
  view (deduct_loop (take k (select_batches name d)) requested
          {| durable := d; txn := Some d |}).2.

(** [bs] is a list of distinct batches of [name] with the quantity each
    holds in [m], all of them positive. *)
Definition fetched (name : string) (bs : list (Z * Z)) (m : gmap Z product) : Prop :=
  NoDup bs.*1
  ∧ ∀ i q, (i, q) ∈ bs →
      ∃ r, m !! i = Some r ∧ quantity r = q ∧ 0 < q ∧ is_product name r = true.

(** What the loop takes from a batch holding [q] when the batches before
    it held [before] in total. *)
Definition taken (requested before q : Z) : Z :=
  Z.min (Z.max 0 (requested - before)) q.


(** ** Calls of the sequencer *)

(** The counter stored for [year], in the committed database. *)
Definition stored_counter (year : Z) (c : connection) : option Z :=
  last_invoice_number <$> settings (durable c) !! year.

(** A call in calendar year [year] whose reset test does not see April 1. *)
Definition ordinary_call (year : Z) (call : datetime * datetime * datetime) : Prop :=
  dt_year call.1.1 = year ∧ ¬ (dt_month call.1.2 = 4 ∧ dt_day call.2 = 1).

(** The number the sequencer issues from database [d]. *)
Definition next_invoice_number (now_y now_m now_d : datetime) (d : database) : Z :=
  if (dt_month now_m =? 4) && (dt_day now_d =? 1) then 1
  else default 0 (last_invoice_number <$> settings d !! dt_year now_y) + 1.

(** ** Batch creation and the batch invariant *)

(** The integers SQLite stores: 64-bit, signed. *)
Definition sqlite_integer (z : Z) : Prop := - 2 ^ 63 ≤ z < 2 ^ 63.

(** The company a batch refers to is [NULL] or a row of [companies]. *)
Definition company_known (cid : option Z) (d : database) : Prop :=
  match cid with
  | None => True
  | Some c => is_Some (companies d !! c)
  end.

(** The row [add_product] inserts. *)
Definition new_batch (cid : option Z) (brand name : string) (qty : Z)
    (price cgst sgst cess : float) (date : string) (invoice : option string) : product :=
  {| company_id := cid; brand := format_name brand;
     product_name := format_name name;
     original_quantity := qty; quantity := qty;
     unit_price := price; cgst := cgst; sgst := sgst; cess := cess;
     purchase_date := date; company_invoice := invoice; is_current := 1 |}.

(** [0 ≤ remaining_quantity ≤ original_quantity]. *)
Definition batch_ok (r : product) : Prop := 0 ≤ quantity r ≤ original_quantity r.

Definition store_ok (d : database) : Prop :=
  ∀ id r, products d !! id = Some r → batch_ok r.

(** The half of the invariant that needs nothing of the inputs. *)
Definition within_original (d : database) : Prop :=
  ∀ id r, products d !! id = Some r → quantity r ≤ original_quantity r.

(** Between two states of a batch: the original quantity is the same, the
    remaining quantity has not grown and has not gone below zero. *)
Definition batch_step (r r' : product) : Prop :=
  original_quantity r' = original_quantity r
  ∧ quantity r' ≤ quantity r
  ∧ (0 ≤ quantity r → 0 ≤ quantity r').

(** Every batch of [m] is still in [m'], one [batch_step] later. *)
Definition never_grows (m m' : gmap Z product) : Prop :=
  ∀ id r, m !! id = Some r → ∃ r', m' !! id = Some r' ∧ batch_step r r'.

(** Moreover [m'] has no batch that [m] has not. *)
Definition shrinks (m m' : gmap Z product) : Prop :=
  never_grows m m' ∧ ∀ id, m !! id = None → m' !! id = None.

(** Outside of [update_stock] an open transaction holds no change of
    [products]. *)
Definition quiet (c : connection) : Prop := products (view c) = products (durable c).

(** A computation that, from a quiet connection, ends on a quiet one whose
    committed batches are those it started with, one [batch_step] later. *)
Definition stock_safe {A} (f : connection → A * connection) : Prop :=
  ∀ c, quiet c →
    quiet (f c).2 ∧ shrinks (products (durable c)) (products (durable (f c).2)).

(** The core operations. *)
Inductive core_op :=
| AddProduct (cid : option Z) (brand name : string) (qty : Z)
    (price cgst sgst cess : float) (date : string) (invoice : option string)
| UpdateStock (name : string) (qty : Z)
| GetInvoiceNumber (now_y now_m now_d : datetime)
| CreateBill (bill_number : Z) (customer : string) (total : float) (date : string)
| AddBillItem (bill_number : Z) (name : string) (qty : Z) (price : float)
| GenerateBill (cart : list (cart_item float)) (customer : string)
    (now_y now_m now_d : datetime) (date : string).

Definition run_op `{!SqlEngine} (op : core_op) (c : connection) : connection :=
  match op with
  | AddProduct cid brand name qty price cgst sgst cess date invoice =>
      (add_product cid brand name qty price cgst sgst cess date invoice c).2
  | UpdateStock name qty => (update_stock name qty c).2
  | GetInvoiceNumber now_y now_m now_d => (get_invoice_number now_y now_m now_d c).2
  | CreateBill n customer total date => (create_bill n customer total date c).2
  | AddBillItem n name qty price => (add_bill_item n name qty price c).2
  | GenerateBill cart customer now_y now_m now_d date =>
      (generate_bill cart customer now_y now_m now_d date c).2
  end.

Definition run_ops `{!SqlEngine} (ops : list core_op) (c : connection) : connection :=
  foldl (λ c op, run_op op c) c ops.

(** A creation with a quantity that is not negative; any other operation. *)
Definition creates_nonneg (op : core_op) : Prop :=
  match op with
  | AddProduct _ _ _ qty _ _ _ _ _ _ => 0 ≤ qty
  | _ => True
  end.

(** ** Sale lines and carts *)


(** The line [add_billing_item] shows for a cart entry. *)
Definition line_of {R} `{!Arith R} (item : cart_item R) : line_amounts R :=
  add_billing_item_amounts (ci_quantity item) (ci_unit_price item)
    (ci_cgst item) (ci_sgst item).


Definition sumQ (l : list Q) : Q := foldr Qplus 0%Q l.

(** What is left of each product, given what was available, once a line
    has been allocated: a line asking for [q ≤ 0] takes nothing. *)
Definition after_line (avail : string → Z) (line : cart_item float) : string → Z :=
  λ name,
    avail name
    - (if Str.nocase_eqb (ci_product_name line) name
       then Z.max 0 (ci_quantity line) else 0).

Definition after_lines (avail : string → Z) (lines : list (cart_item float)) : string → Z :=
  foldl after_line avail lines.

(** Each line, in turn, asks for no more than what is left. *)
Fixpoint allocatable (avail : string → Z) (lines : list (cart_item float)) : Prop :=
  match lines with
  | [] => True
  | line :: rest =>
      ci_quantity line ≤ avail (ci_product_name line)
      ∧ allocatable (after_line avail line) rest
  end.


(** ** Sample data *)

(** A batch of "Widget" bought on [date]. *)
Definition widget (qty : Z) (price : float) (date : string) : product :=
  {| company_id := None; brand := "Acme"; product_name := "Widget";
     original_quantity := qty; quantity := qty; unit_price := price;
     cgst := 9; sgst := 9; cess := 2; purchase_date := date;
     company_invoice := None; is_current := 1 |}.

(** A shop with five units of "Widget" and one of "Gadget". *)
Definition gadget (qty : Z) (price : float) (date : string) : product :=
  {| company_id := None; brand := "Acme"; product_name := "Gadget";
     original_quantity := qty; quantity := qty; unit_price := price;
     cgst := 6; sgst := 6; cess := 0; purchase_date := date;
     company_invoice := None; is_current := 1 |}.

(** Batch 1 of 2024-01-01 and batch 2 of 2024-01-10, five units each. *)
Definition two_batches : database :=
  with_products
    (<[1 := widget 5 100 "2024-01-01"]> (<[2 := widget 5 110 "2024-01-10"]> ∅))
    empty_database.

(** Two batches bought on the same day. *)
Definition same_day : database :=
  with_products
    (<[1 := widget 5 100 "2024-01-01"]> (<[2 := widget 5 100 "2024-01-01"]> ∅))
    empty_database.

Definition shop : database :=
  with_products
    (<[1 := widget 5 100 "2024-01-01"]> (<[2 := gadget 1 50 "2024-01-05"]> ∅))
    empty_database.

Definition widget_line : cart_item float :=
  {| ci_product_name := "Widget"; ci_quantity := 2; ci_unit_price := 100%float;
     ci_cgst := 9%float; ci_sgst := 9%float |}.


(** A store reached through the handler: five units of "Widget" bought,
    then a batch entered with quantity [-3]. *)
Definition mixed_stock : connection :=
  run_ops (H := oldest_id_first_engine)
    [AddProduct None "acme" "widget" 5 100 9 9 2 "2024-01-01" None;
     AddProduct None "acme" "widget" (-3) 100 9 9 2 "2024-01-02" None]
    (idle empty_database).

Definition march_3 : datetime := {| dt_year := 2025; dt_month := 3; dt_day := 3 |}.


(** * Further vocabulary: names *)

(** No character of the string is a separator of [str.split()]. *)
Fixpoint no_space (s : string) : bool :=
  match s with
  | EmptyString => true
  | String c s' => negb (Str.is_space c) && no_space s'
  end.

(** A word as [str.split()] returns them: not empty, no separator. *)
Definition word (s : string) : Prop := s ≠ "" ∧ no_space s = true.

(** Every character of the string is an ASCII character. On such strings
    Python's [str.upper], [str.lower] and [str.split] are [Str.upper],
    [Str.lower] and [Str.split]; on others they follow Unicode. *)
Fixpoint is_ascii (s : string) : bool :=
  match s with
  | EmptyString => true
  | String c s' => (nat_of_ascii c <? 128)%nat && is_ascii s'
  end.

(** The input with every run of separators turned into one blank and
    none left at either end. *)
Definition squeeze (s : string) : string := Str.join " " (Str.split s).

(** * Further handler methods and their callers *)

(** ** Rows in no stated order

    A [SELECT] without [ORDER BY] returns its rows in an order the engine
    chooses. *)
Class TableScan := {
  scan : ∀ {A : Type}, list (Z * A) → list (Z * A);
  scan_Permutation : ∀ {A : Type} (l : list (Z * A)), scan l ≡ₚ l }.

(** ** Companies *)

Definition set_companies (f : gmap Z company → gmap Z company) (d : database) : database :=
  {| companies := f (companies d); products := products d;
     settings := settings d; billing := billing d;
     bill_items := bill_items d |}.

(** [INSERT INTO companies (name, gst_number, contact) VALUES (?, ?, ?)]. *)
Definition insert_company (co : company) (d : database) : result database :=
  Ok (set_companies (insert (next_rowid (companies d)) co) d).

(** [DatabaseHandler.add_company]. *)
Definition add_company (name gst_number contact : string) : DB unit :=
  _ ← execute (insert_company
         {| c_name := format_name name; c_gst_number := gst_number;
            c_contact := contact |});
  commit.

(** The dictionary [{name: id for id, name in rows}]: a later row replaces
    an earlier one of the same name. *)
Definition name_to_id (rows : list (Z * company)) : gmap string Z :=
  foldl (λ m ir, <[c_name ir.2 := ir.1]> m) ∅ rows.

(** [DatabaseHandler.get_companies]. *)
Definition get_companies `{!TableScan} : DB (gmap string Z) :=
  query (λ d, name_to_id (scan (map_to_list (companies d)))).

(** ** Saving a purchase entry *)

(** An entry of [product_items], as [add_product_to_list] builds it. *)
Record product_item (R : Type) := {
  pi_company : string;
  pi_brand : string;
  pi_product_name : string;
  pi_quantity : Z;
  pi_unit_price : R;
  pi_cgst : R;
  pi_sgst : R;
  pi_cess : R;
  pi_company_invoice : string }.
Arguments pi_company {R} _.
Arguments pi_brand {R} _.
Arguments pi_product_name {R} _.
Arguments pi_quantity {R} _.
Arguments pi_unit_price {R} _.
Arguments pi_cgst {R} _.
Arguments pi_sgst {R} _.
Arguments pi_cess {R} _.
Arguments pi_company_invoice {R} _.






(** A scan in ascending id. *)
Definition by_id {A} (x y : Z * A) : Prop := x.1 ≤ y.1.

#[global] Instance by_id_dec {A} (x y : Z * A) : Decision (by_id x y).
Proof. unfold by_id. apply _. Defined.


(** ** The totals of the two forms *)

(** What [update_billing_totals] shows under the cart. *)
Record billing_totals (R : Type) := {
  bt_subtotal : R;
  bt_total_cgst : R;
  bt_total_sgst : R;
  bt_total : R }.
Arguments bt_subtotal {R} _.
Arguments bt_total_cgst {R} _.
Arguments bt_total_sgst {R} _.
Arguments bt_total {R} _.

(** What [update_product_totals] shows under the purchase entry. *)
Record product_totals (R : Type) := {
  pt_subtotal : R;
  pt_total_cgst : R;
  pt_total_sgst : R;
  pt_total_cess : R;
  pt_total : R }.
Arguments pt_subtotal {R} _.
Arguments pt_total_cgst {R} _.
Arguments pt_total_sgst {R} _.
Arguments pt_total_cess {R} _.
Arguments pt_total {R} _.

(** The fields of the purchase form that [add_product_to_list] reads, the
    numbers already parsed. *)
Record product_form (R : Type) := {
  pf_company : string;
  pf_brand : string;
  pf_product_name : string;
  pf_quantity : Z;
  pf_price : R;
  pf_cess : R;
  pf_gst_slab : R;
  pf_company_invoice : string }.
Arguments pf_company {R} _.
Arguments pf_brand {R} _.
Arguments pf_product_name {R} _.
Arguments pf_quantity {R} _.
Arguments pf_price {R} _.
Arguments pf_cess {R} _.
Arguments pf_gst_slab {R} _.
Arguments pf_company_invoice {R} _.

Section Totals.
Context {R : Type} `{!Arith R}.

(** The loop of [update_billing_totals], from the three sums so far. *)
Fixpoint billing_totals_loop (temp_products : list (cart_item R))
    (subtotal total_cgst total_sgst : R) : R * R * R :=
  match temp_products with
  | [] => (subtotal, total_cgst, total_sgst)
  | item :: rest =>
      let item_value := rmul (of_int (ci_quantity item)) (ci_unit_price item) in
      billing_totals_loop rest
        (radd subtotal item_value)
        (radd total_cgst (rmul item_value (rdiv (ci_cgst item) (of_int 100))))
        (radd total_sgst (rmul item_value (rdiv (ci_sgst item) (of_int 100))))
  end.

(** [StockManagementApp.update_billing_totals], the labels being there. *)
Definition update_billing_totals (temp_products : list (cart_item R)) : billing_totals R :=
  let '(subtotal, total_cgst, total_sgst) :=
    billing_totals_loop temp_products (of_int 0) (of_int 0) (of_int 0) in
  {| bt_subtotal := subtotal; bt_total_cgst := total_cgst;
     bt_total_sgst := total_sgst;
     bt_total := radd (radd subtotal total_cgst) total_sgst |}.

(** The loop of [update_product_totals], from the four sums so far. *)
Fixpoint product_totals_loop (product_items : list (product_item R))
    (subtotal total_cgst total_sgst total_cess : R) : R * R * R * R :=
  match product_items with
  | [] => (subtotal, total_cgst, total_sgst, total_cess)
  | item :: rest =>
      let item_value := rmul (of_int (pi_quantity item)) (pi_unit_price item) in
      product_totals_loop rest
        (radd subtotal item_value)
        (radd total_cgst (rmul item_value (rdiv (pi_cgst item) (of_int 100))))
        (radd total_sgst (rmul item_value (rdiv (pi_sgst item) (of_int 100))))
        (radd total_cess (rmul item_value (rdiv (pi_cess item) (of_int 100))))
  end.

(** [StockManagementApp.update_product_totals]. *)
Definition update_product_totals (product_items : list (product_item R)) : product_totals R :=
  let '(subtotal, total_cgst, total_sgst, total_cess) :=
    product_totals_loop product_items (of_int 0) (of_int 0) (of_int 0) (of_int 0) in
  {| pt_subtotal := subtotal; pt_total_cgst := total_cgst;
     pt_total_sgst := total_sgst; pt_total_cess := total_cess;
     pt_total := radd (radd (radd subtotal total_cgst) total_sgst) total_cess |}.

(** [StockManagementApp.add_product_to_list], once the required fields
    are there and the numbers parsed: the entry appended to
    [product_items] and the item total shown in its row. *)
Definition add_product_to_list (form : product_form R) : product_item R * R :=
  let quantity := pf_quantity form in
  let price := pf_price form in
  let cess := pf_cess form in
  let gst_slab := pf_gst_slab form in
  let cgst := rdiv gst_slab (of_int 2) in
  let sgst := rdiv gst_slab (of_int 2) in
  let item_total :=
    rmul (rmul price (of_int quantity))
      (radd (of_int 1) (rdiv (radd (radd cgst sgst) cess) (of_int 100))) in
  ({| pi_company := pf_company form; pi_brand := pf_brand form;
      pi_product_name := pf_product_name form; pi_quantity := quantity;
      pi_unit_price := price; pi_cgst := cgst; pi_sgst := sgst;
      pi_cess := cess; pi_company_invoice := pf_company_invoice form |},
   item_total).

End Totals.

(** ** Adding a line to the cart *)

(** Two [REAL] values fall in one group of a [GROUP BY]; a value that is
    not a number is stored as [NULL], and [NULL]s group together. *)
Definition same_real (a b : float) : bool :=
  PrimFloat.eqb a b || (PrimFloat.is_nan a && PrimFloat.is_nan b).

(** [GROUP BY p.product_name, p.cgst, p.sgst]. *)
Definition same_group (x y : Z * product) : bool :=
  Str.nocase_eqb (product_name x.2) (product_name y.2)
  && same_real (cgst x.2) (cgst y.2)
  && same_real (sgst x.2) (sgst y.2).

(** The row [fetchone()] returns for
    [SELECT p.product_name, p.cgst, p.sgst, SUM(p.quantity)
     FROM products p WHERE p.product_name = ?
     GROUP BY p.product_name, p.cgst, p.sgst]:
    the group of the batch the engine comes to first. *)
Definition product_data `{!TableScan} (name : string) (d : database) : option (string * float * float * Z) :=
  match scan (filter (λ ir, Is_true (is_product name ir.2)) (map_to_list (products d))) with
  | [] => None
  | first :: rest =>
      Some (product_name first.2, cgst first.2, sgst first.2,
            sumZ ((λ ir, quantity ir.2)
                    <$> filter (λ ir, Is_true (same_group first ir)) (first :: rest)))
  end.

(** What [add_billing_item] does with the form, the quantity and the
    price already parsed. A rate read as [NULL] cannot be divided by 100:
    the [TypeError] leaves the method. *)
Inductive billing_item_outcome :=
| FillAllFields
| ProductNotFound
| NotEnoughStock (total_quantity : Z)
| RateIsNull
| ItemAdded (item : cart_item float) (line : line_amounts float).

(** [StockManagementApp.add_billing_item]: the outcome and the cart
    [temp_products] it leaves. *)
Definition add_billing_item `{!TableScan} (product_name : string) (quantity : Z)
    (price : float) (temp_products : list (cart_item float)) (c : connection) : billing_item_outcome * list (cart_item float) :=
  if String.eqb product_name "" then (FillAllFields, temp_products)
  else
    match product_data product_name (view c) with
    | None => (ProductNotFound, temp_products)
    | Some (_, cgst, sgst, total_quantity) =>
        if total_quantity <? quantity then (NotEnoughStock total_quantity, temp_products)
        else if PrimFloat.is_nan cgst || PrimFloat.is_nan sgst then (RateIsNull, temp_products)
        else
          let line := add_billing_item_amounts quantity price cgst sgst in
          let item :=
            {| ci_product_name := product_name; ci_quantity := quantity;
               ci_unit_price := price; ci_cgst := cgst; ci_sgst := sgst |} in
          (ItemAdded item line, (temp_products ++ [item])%list)
    end.

(** ** The purchase history *)

(** [ORDER BY p.purchase_date DESC]: as for the ascending order, the
    engine chooses among the rows of one date. *)
Class SqlEngineDesc := {
  order_by_purchase_date_desc : list (Z * product) → list (Z * product);
  order_by_desc_Permutation l : order_by_purchase_date_desc l ≡ₚ l;
  order_by_desc_Sorted l : Sorted (flip row_date_le) (order_by_purchase_date_desc l) }.

(** A row of [get_purchase_history]. *)
Record purchase := {
  ph_id : Z;
  ph_company_name : option string;
  ph_brand : string;
  ph_product_name : string;
  ph_original_quantity : Z;
  ph_remaining_quantity : Z;
  ph_unit_price : float;
  ph_cgst : float;
  ph_sgst : float;
  ph_cess : float;
  ph_purchase_date : string;
  ph_company_invoice : option string;
  ph_sold_quantity : Z }.

(** The columns selected from [products p LEFT JOIN companies c ON
    p.company_id = c.id]. *)
Definition purchase_row (d : database) (ir : Z * product) : purchase :=
  {| ph_id := ir.1;
     ph_company_name := cid ← company_id ir.2; c_name <$> companies d !! cid;
     ph_brand := brand ir.2;
     ph_product_name := product_name ir.2;
     ph_original_quantity := original_quantity ir.2;
     ph_remaining_quantity := quantity ir.2;
     ph_unit_price := unit_price ir.2;
     ph_cgst := cgst ir.2;
     ph_sgst := sgst ir.2;
     ph_cess := cess ir.2;
     ph_purchase_date := purchase_date ir.2;
     ph_company_invoice := company_invoice ir.2;
     ph_sold_quantity := original_quantity ir.2 - quantity ir.2 |}.

(** [DatabaseHandler.get_purchase_history]: the [WHERE] clause is added
    for a product name that Python takes for true. *)
Definition get_purchase_history `{!SqlEngineDesc} (product_name : option string) : DB (list purchase) :=
  query (λ d,
    let rows := map_to_list (products d) in
    let rows :=
      match product_name with
      | None => rows
      | Some name =>
          if String.eqb name "" then rows
          else filter (λ ir, Is_true (is_product name ir.2)) rows
      end in
    purchase_row d <$> order_by_purchase_date_desc rows).

(** The quantity bought of a product, over all its batches. *)
Definition bought (name : string) (m : gmap Z product) : Z :=
  sumZ ((λ ir, original_quantity ir.2)
          <$> filter (λ ir, Is_true (is_product name ir.2)) (map_to_list m)).

(** An engine for the descending order: the latest date first and, among
    the batches of one date, the largest id first. *)
Definition latest_first (x y : Z * product) : Prop := oldest_id_first y x.

#[global] Instance latest_first_dec x y : Decision (latest_first x y).
Proof. unfold latest_first. apply _. Defined.

#[global] Instance latest_first_total : Total latest_first.
Proof. intros x y. unfold latest_first. destruct (total oldest_id_first x y); auto. Qed.

Lemma latest_first_Sorted l : Sorted (flip row_date_le) (merge_sort latest_first l).
Proof.
  eapply Sorted_weaken; [| apply (Sorted_merge_sort latest_first)].
  intros x y. apply oldest_id_first_date.
Qed.

Definition latest_first_engine : SqlEngineDesc :=
  {| order_by_purchase_date_desc := merge_sort latest_first;
     order_by_desc_Permutation := merge_sort_Permutation latest_first;
     order_by_desc_Sorted := latest_first_Sorted |}.

(** ** The low-stock threshold *)

(** [UPDATE settings SET low_stock_threshold=? WHERE year=?]. *)
Definition update_low_stock_threshold (threshold year : Z) (d : database) : result database :=
  Ok (set_settings
        (alter (λ s, {| last_invoice_number := last_invoice_number s;
                        low_stock_threshold := threshold |}) year) d).

(** [StockManagementApp.set_low_stock_threshold]: [threshold] is what the
    dialog returned, [None] when it was dismissed; [now] is the clock
    reading of the update. *)
Definition set_low_stock_threshold (threshold : option Z) (now : datetime) : DB unit :=
  match threshold with
  | None => mret ()
  | Some t =>
      if t =? 0 then mret ()
      else
        _ ← execute (update_low_stock_threshold t (dt_year now));
        commit
  end.

(** The threshold [load_products] reads: that of the row of the year, 5
    when the year has no row. *)
Definition read_low_stock_threshold (now : datetime) : DB Z :=
  query (λ d, default 5 (low_stock_threshold <$> settings d !! dt_year now)).

(** [setup_database], "Initialize settings for current year":
    [INSERT OR IGNORE INTO settings (year, last_invoice_number)
     VALUES (?, 0)], once the column [low_stock_threshold] is there with
    its default. *)
Definition initialize_settings (current_year : Z) (d : database) : database :=
  match settings d !! current_year with
  | Some _ => d
  | None =>
      set_settings
        (insert current_year {| last_invoice_number := 0; low_stock_threshold := 5 |}) d
  end.

(** ** Customers *)

(** [customers (id INTEGER PRIMARY KEY, name, address, gst_number,
    contact)]. The handler commits a customer as soon as it has inserted
    it: the table is kept beside the connection, as committed. *)
Record customer := {
  cu_name : string;
  cu_address : string;
  cu_gst_number : string;
  cu_contact : string }.

(** [DatabaseHandler.add_customer]: the connection and the table it
    leaves. *)
Definition add_customer (name address gst_number contact : string)
    (c : connection) (customers : gmap Z customer) : connection * gmap Z customer :=
  ((commit c).2,
   <[next_rowid customers :=
       {| cu_name := format_name name; cu_address := address;
          cu_gst_number := gst_number; cu_contact := contact |}]> customers).

#[global] Instance date_le_dec a b : Decision (date_le a b).
Proof. unfold date_le. solve_decision. Defined.

#[global] Instance date_le_total : Total date_le.
Proof.
  intros a b. destruct (date_total a b) as [H | [-> | H]].
  - left. by apply date_lt_le.
  - left. apply date_le_refl.
  - right. by apply date_lt_le.
Qed.

(** [DatabaseHandler.get_customers]: [SELECT name FROM customers ORDER BY
    name]; the names compare bytewise. *)
Definition get_customers (customers : gmap Z customer) : list string :=
  merge_sort date_le ((λ ir, cu_name ir.2) <$> map_to_list customers).

(** [DatabaseHandler.get_customer_address]: the address of the row the
    engine comes to first among those of that name, the empty string when
    there is none. *)
Definition get_customer_address `{!TableScan} (name : string) (customers : gmap Z customer) : string :=
  match scan (filter (λ ir, cu_name ir.2 = name) (map_to_list customers)) with
  | [] => ""
  | first :: _ => cu_address first.2
  end.

(** ** Further sample data *)




(** The shop at the end of 2024: bill 1 issued, counter of 2024 at 1. *)
Definition shop_2024 : database :=
  set_billing
    (insert 1 {| customer_name := "Asha"; total_amount := 118;
                 bill_date := "2024-06-01 09:00:00" |})
    (set_settings
       (insert 2024 {| last_invoice_number := 1; low_stock_threshold := 5 |})
       shop).

Definition new_year : datetime := {| dt_year := 2025; dt_month := 1; dt_day := 2 |}.

Definition march_2024 : datetime := {| dt_year := 2024; dt_month := 3; dt_day := 9 |}.

(** One unit at 10.0, CGST 6 and SGST 6. *)
Definition ten_at_twelve_percent : cart_item float :=
  {| ci_product_name := "Widget"; ci_quantity := 1; ci_unit_price := 10%float;
     ci_cgst := 6%float; ci_sgst := 6%float |}.

(** The value of a purchase line before tax, in exact arithmetic. *)
Definition form_base (form : product_form Q) : Q :=
  (pf_price form * inject_Z (pf_quantity form))%Q.

(** Half of the slab rate, and the CESS rate, applied to that value. *)
Definition form_half_gst (form : product_form Q) : Q :=
  (form_base form * (pf_gst_slab form / 2) / 100)%Q.

Definition form_cess (form : product_form Q) : Q :=
  (form_base form * pf_cess form / 100)%Q.

(** Ten units at 100.0 under the 18 % slab, with a CESS of 2 %. *)
Definition ten_widgets_form : product_form float :=
  {| pf_company := "Acme"; pf_brand := "acme"; pf_product_name := "widget";
     pf_quantity := 10; pf_price := 100%float; pf_cess := 2%float;
     pf_gst_slab := 18%float; pf_company_invoice := "INV-7" |}.

(** * Properties *)

(** ** The invoice sequencer *)

Ltac unfold_db :=
  unfold mbind, mret, DB_bind, DB_ret, query, execute, commit, rollback,
    raise, try_except, begin_immediate in *.

(** What one call does to a connection, in terms of the counter [n] it
    finds ([0] when the year has no row yet). *)
Lemma get_invoice_number_run now_y now_m now_d c :
  let n := default 0 (last_invoice_number <$> settings (view c) !! dt_year now_y) in
  let new := if (dt_month now_m =? 4) && (dt_day now_d =? 1) then 1 else n + 1 in
  ∃ c', get_invoice_number now_y now_m now_d c = (Ok new, c')
        ∧ txn c' = None
        ∧ stored_counter (dt_year now_y) c' = Some new
        ∧ (∀ y, y ≠ dt_year now_y →
             settings (durable c') !! y = settings (view c) !! y)
        ∧ products (durable c') = products (view c)
        ∧ billing (durable c') = billing (view c)
        ∧ bill_items (durable c') = bill_items (view c)
        ∧ companies (durable c') = companies (view c).
Proof.
  intros n new. subst n new. unfold get_invoice_number, stored_counter. unfold_db.
  simpl. destruct (settings (view c) !! dt_year now_y) as [s |] eqn:Hs; simpl.
  - unfold update_last_invoice_number. simpl. eexists. split; [reflexivity |].
    simpl. rewrite lookup_alter_eq, Hs. simpl.
    repeat split; try done. intros y Hy. by rewrite lookup_alter_ne.
  - unfold insert_setting. rewrite Hs. simpl. unfold view at 1. simpl.
    eexists. split; [reflexivity |]. simpl.
    rewrite lookup_alter_eq, lookup_insert_eq. simpl.
    repeat split; try done. intros y Hy.
    rewrite lookup_alter_ne, lookup_insert_ne; done.
Qed.

(** C6. Every call of [get_invoice_number] whose clock readings fall on
    April 1 returns 1 and leaves 1 as the committed [last_invoice_number]
    of the current year, whatever the connection held before: the reset
    applies to each such call, not only to the first. *)
Theorem get_invoice_number_april_1 now_y now_m now_d c :
  dt_month now_m = 4 → dt_day now_d = 1 →
  ∃ c', get_invoice_number now_y now_m now_d c = (Ok 1, c')
        ∧ txn c' = None
        ∧ stored_counter (dt_year now_y) c' = Some 1.
Proof.
  intros Hm Hd.
  destruct (get_invoice_number_run now_y now_m now_d c) as (c' & Hrun & Hidle & Hst & _).
  rewrite Hm, Hd in Hrun, Hst. simpl in Hrun, Hst. eauto.
Qed.

Lemma get_invoice_number_april_1_witness :
  ∃ c', get_invoice_number
          {| dt_year := 2025; dt_month := 4; dt_day := 1 |}
          {| dt_year := 2025; dt_month := 4; dt_day := 1 |}
          {| dt_year := 2025; dt_month := 4; dt_day := 1 |}
          (idle (set_settings
                   (insert 2025 {| last_invoice_number := 41; low_stock_threshold := 5 |})
                   empty_database))
        = (Ok 1, c')
        ∧ txn c' = None
        ∧ stored_counter 2025 c' = Some 1.
Proof.
  apply (get_invoice_number_april_1
           {| dt_year := 2025; dt_month := 4; dt_day := 1 |}
           {| dt_year := 2025; dt_month := 4; dt_day := 1 |}
           {| dt_year := 2025; dt_month := 4; dt_day := 1 |}); reflexivity.
Defined.

(** ** Quantities of the batch store *)

#[global] Instance sumZ_Permutation : Proper ((≡ₚ) ==> (=)) sumZ.
Proof.
  intros l1 l2 Hp. induction Hp; simpl; lia.
Qed.

Lemma sumZ_app l1 l2 : sumZ (l1 ++ l2) = sumZ l1 + sumZ l2.
Proof. induction l1; simpl; lia. Qed.

Lemma sumZ_nonneg l : Forall (λ q, 0 ≤ q) l → 0 ≤ sumZ l.
Proof. induction 1; simpl; lia. Qed.

Lemma with_products_id d : with_products (products d) d = d.
Proof. by destruct d. Qed.

Lemma decrement_0 r : decrement 0 r = r.
Proof. destruct r. unfold decrement. simpl. f_equal. lia. Qed.

Lemma batch_sum_cons P ir l :
  sumZ ((λ ir, quantity ir.2) <$> filter (λ ir, Is_true (P ir)) (ir :: l))
  = share P ir + sumZ ((λ ir, quantity ir.2) <$> filter (λ ir, Is_true (P ir)) l).
Proof.
  unfold share. rewrite filter_cons. destruct (P ir) eqn:E; case_decide; simpl;
    try done; exfalso; tauto.
Qed.

(** An update of one row moves a sum by the difference of the row's shares. *)
Lemma batch_sum_alter P g i r (m : gmap Z product) :
  m !! i = Some r →
  batch_sum P (alter g i m) = batch_sum P m - share P (i, r) + share P (i, g r).
Proof.
  intros Hi. unfold batch_sum.
  assert (map_to_list m ≡ₚ (i, r) :: map_to_list (delete i m)) as ->
    by (symmetry; by apply map_to_list_delete).
  assert (alter g i m = <[i := g r]> (delete i m)) as ->.
  { apply map_eq. intros j. destruct (decide (i = j)) as [-> |].
    - by rewrite lookup_alter_eq, lookup_insert_eq, Hi.
    - by rewrite lookup_alter_ne, lookup_insert_ne, lookup_delete_ne. }
  rewrite map_to_list_insert by apply lookup_delete_eq.
  rewrite !batch_sum_cons. lia.
Qed.

Lemma batch_sum_ext P Q (m : gmap Z product) :
  (∀ i r, m !! i = Some r → share P (i, r) = share Q (i, r)) →
  batch_sum P m = batch_sum Q m.
Proof.
  intros H. unfold batch_sum.
  assert (∀ ir, ir ∈ map_to_list m → share P ir = share Q ir) as Hl.
  { intros [i r] Hin. apply H. by apply elem_of_map_to_list. }
  induction (map_to_list m) as [| ir l IH]; [done |].
  rewrite !batch_sum_cons, IH, Hl; [done | by left |].
  intros ? ?. apply Hl. by right.
Qed.

(** No batch below zero: then the stock of a product is what the
    allocator finds available. *)
Lemma available_stock_of name d :
  (∀ i r, products d !! i = Some r → 0 ≤ quantity r) →
  available name d = stock_of name d.
Proof.
  intros Hpos. apply batch_sum_ext. intros i r Hi. unfold share, in_stock. simpl.
  specialize (Hpos i r Hi). destruct (is_product name r); simpl; [| done].
  destruct (0 <? quantity r) eqn:E; [done |]. apply Z.ltb_ge in E. lia.
Qed.

(** In every state the allocator finds at least the stock of the product. *)
Lemma stock_of_le_available name d : stock_of name d ≤ available name d.
Proof.
  unfold stock_of, available, batch_sum.
  induction (map_to_list (products d)) as [| ir l IH]; [done |].
  rewrite !batch_sum_cons. unfold share, in_stock at 1.
  destruct (is_product name ir.2); simpl; [| lia].
  destruct (0 <? quantity ir.2) eqn:E; [lia |]. apply Z.ltb_ge in E. lia.
Qed.

Lemma available_nonneg name d : 0 ≤ available name d.
Proof.
  unfold available, batch_sum.
  induction (map_to_list (products d)) as [| ir l IH]; [done |].
  rewrite batch_sum_cons. unfold share, in_stock at 1.
  destruct (is_product name ir.2); simpl; [| lia].
  destruct (0 <? quantity ir.2) eqn:E; [| lia]. apply Z.ltb_lt in E. lia.
Qed.

(** ** The allocator *)

Section Allocator.
Context `{!SqlEngine}.

Lemma elem_of_stock_rows name d i r :
  (i, r) ∈ stock_rows name d
  ↔ products d !! i = Some r ∧ is_product name r = true ∧ 0 < quantity r.
Proof.
  unfold stock_rows. rewrite order_by_Permutation, list_elem_of_filter.
  rewrite elem_of_map_to_list. unfold in_stock. simpl.
  rewrite andb_True, !Is_true_true, Z.ltb_lt. tauto.
Qed.

Lemma NoDup_stock_rows name d : NoDup (stock_rows name d).*1.
Proof.
  unfold stock_rows. rewrite order_by_Permutation.
  eapply sublist_NoDup; [apply (NoDup_fst_map_to_list (products d)) |].
  apply fmap_sublist, sublist_filter.
Qed.

Lemma select_batches_ids name d : (select_batches name d).*1 = (stock_rows name d).*1.
Proof.
  unfold select_batches. rewrite <- list_fmap_compose. done.
Qed.

Lemma elem_of_select_batches name d i q :
  (i, q) ∈ select_batches name d
  ↔ ∃ r, products d !! i = Some r ∧ quantity r = q
         ∧ is_product name r = true ∧ 0 < q.
Proof.
  unfold select_batches. rewrite list_elem_of_fmap. split.
  - intros ([i' r] & Heq & Hin). simpl in Heq. inversion Heq; subst.
    apply elem_of_stock_rows in Hin as (? & ? & ?). eauto.
  - intros (r & Hi & <- & Hn & Hq). exists (i, r). split; [done |].
    by apply elem_of_stock_rows.
Qed.

Lemma select_batches_fetched name d :
  fetched name (select_batches name d) (products d).
Proof.
  split.
  - rewrite select_batches_ids. apply NoDup_stock_rows.
  - intros i q Hin. apply elem_of_select_batches in Hin as (r & ? & ? & ? & ?).
    eauto 10.
Qed.

(** The [total_available] that [update_stock] computes. *)
Lemma sumZ_select_batches name d :
  sumZ (select_batches name d).*2 = available name d.
Proof.
  unfold select_batches, available, batch_sum, stock_rows.
  rewrite <- list_fmap_compose.
  by rewrite order_by_Permutation.
Qed.


(** The loop changes the [products] table of the open transaction as
    [allocate] says, and nothing else. *)
Lemma deduct_loop_allocate bs remaining c d :
  txn c = Some d →
  deduct_loop bs remaining c
  = (Ok (allocate bs remaining (products d)).1,
     {| durable := durable c;
        txn := Some (with_products (allocate bs remaining (products d)).2 d) |}).
Proof.
  revert remaining c d. induction bs as [| [i q] bs IH]; intros remaining c d Hc.
  - simpl. rewrite with_products_id. destruct c; simpl in *; by subst.
  - simpl. destruct (remaining <=? 0) eqn:E.
    + simpl. rewrite with_products_id. destruct c; simpl in *; by subst.
    + unfold_db. simpl. unfold update_quantity. simpl.
      erewrite IH; [| reflexivity]. unfold view. rewrite Hc. simpl.
      reflexivity.
Qed.

(** [update_stock] on a connection with no transaction open. *)
Lemma update_stock_run name requested d :
  update_stock name requested (idle d)
  = if available name d <? requested then
      (Raise (ValueError (insufficient_stock (available name d) requested)), idle d)
    else
      (Ok (), idle (with_products
                      (allocate (select_batches name d) requested (products d)).2 d)).
Proof.
  unfold update_stock. unfold_db. simpl.
  change (view {| durable := d; txn := Some d |}) with d.
  rewrite sumZ_select_batches.
  destruct (available name d <? requested) eqn:E; [done |].
  erewrite deduct_loop_allocate; [| reflexivity]. simpl. reflexivity.
Qed.

End Allocator.

(** *** The loop in closed form *)

Lemma allocate_nonpos bs remaining m :
  remaining ≤ 0 → allocate bs remaining m = (remaining, m).
Proof.
  intros H. destruct bs; simpl; [done |].
  destruct (remaining <=? 0) eqn:E; [done |]. apply Z.leb_gt in E. lia.
Qed.

Lemma fetched_positive name bs m q : fetched name bs m → q ∈ bs.*2 → 0 < q.
Proof.
  intros [_ Hf] Hq. apply list_elem_of_fmap in Hq as ([i q'] & -> & Hin).
  destruct (Hf _ _ Hin) as (? & ? & ? & ? & ?). done.
Qed.

Lemma fetched_sum_nonneg name bs m : fetched name bs m → 0 ≤ sumZ bs.*2.
Proof.
  intros Hf. apply sumZ_nonneg, Forall_forall. intros q Hq.
  pose proof (fetched_positive _ _ _ _ Hf Hq). lia.
Qed.

Lemma fetched_take name bs m k : fetched name bs m → fetched name (take k bs) m.
Proof.
  intros [Hnd Hf]. split.
  - eapply sublist_NoDup; [exact Hnd |]. apply fmap_sublist, sublist_take.
  - intros i q Hin. apply Hf. eapply elem_of_sublist; [exact Hin |]. apply sublist_take.
Qed.

Lemma fetched_cons name i q bs m :
  fetched name ((i, q) :: bs) m →
  (i ∉ bs.*1)
  ∧ (∃ r, m !! i = Some r ∧ quantity r = q ∧ 0 < q ∧ is_product name r = true)
  ∧ ∀ g, fetched name bs (alter g i m).
Proof.
  intros [Hnd Hf]. simpl in Hnd. apply NoDup_cons in Hnd as [Hi Hnd].
  split; [done |]. split; [apply Hf; by left |].
  intros g. split; [done |]. intros j q' Hin.
  destruct (Hf j q') as (r & ? & ? & ? & ?); [by right |].
  exists r. rewrite lookup_alter_ne; [done |].
  intros ->. apply Hi. apply list_elem_of_fmap. by exists (j, q').
Qed.

(** The value of [remaining] when the loop ends. *)
Lemma allocate_remaining name bs requested m :
  fetched name bs m → 0 ≤ requested →
  (allocate bs requested m).1 = Z.max 0 (requested - sumZ bs.*2).
Proof.
  revert requested m. induction bs as [| [i q] bs IH]; intros requested m Hf Hr.
  - simpl. lia.
  - pose proof (fetched_sum_nonneg _ _ _ Hf) as Hs.
    destruct (fetched_cons _ _ _ _ _ Hf) as (_ & (r & _ & _ & Hq & _) & Hf').
    csimpl in *. destruct (requested <=? 0) eqn:E.
    + apply Z.leb_le in E. simpl. lia.
    + apply Z.leb_gt in E. rewrite (IH _ _ (Hf' _)) by lia.
      pose proof (fetched_sum_nonneg _ _ _ (Hf' id)). lia.
Qed.

(** Every fetched batch ends with its quantity less [taken]; no other
    row of the table changes. *)
Lemma allocate_lookup name bs requested m :
  fetched name bs m →
  (∀ i, i ∉ bs.*1 → (allocate bs requested m).2 !! i = m !! i)
  ∧ (∀ k i q, bs !! k = Some (i, q) →
       (allocate bs requested m).2 !! i
       = decrement (taken requested (sumZ (take k bs).*2) q) <$> m !! i).
Proof.
  revert requested m. induction bs as [| [i0 q0] bs IH]; intros requested m Hf.
  - simpl. split; [done |]. intros k i q Hk. by rewrite lookup_nil in Hk.
  - destruct (fetched_cons _ _ _ _ _ Hf) as (Hi0 & (r0 & Hm0 & Hq0 & Hpos0 & _) & Hf').
    simpl. destruct (requested <=? 0) eqn:E.
    + apply Z.leb_le in E. simpl. split; [done |]. intros k i q Hk.
      assert (0 < q).
      { eapply fetched_positive; [exact Hf |]. apply list_elem_of_fmap.
        exists (i, q). split; [done |]. eapply list_elem_of_lookup_2; eauto. }
      pose proof (fetched_sum_nonneg _ _ _ (fetched_take _ _ _ k Hf)) as Hs.
      assert (taken requested (sumZ (take k ((i0, q0) :: bs)).*2) q = 0) as ->
        by (unfold taken; lia).
      destruct (m !! i); simpl; [by rewrite decrement_0 | done].
    + apply Z.leb_gt in E.
      destruct (IH (requested - Z.min requested q0) _ (Hf' (decrement (Z.min requested q0))))
        as [IH1 IH2].
      split.
      * intros i Hi. apply not_elem_of_cons in Hi as [Hne Hi].
        rewrite IH1 by done. by rewrite lookup_alter_ne.
      * intros [| k] i q Hk; simpl in Hk.
        -- inversion Hk; subst. rewrite IH1 by done.
           rewrite lookup_alter_eq. simpl.
           replace (taken requested 0 (quantity r0)) with (Z.min requested (quantity r0))
             by (unfold taken; lia).
           done.
        -- rewrite (IH2 _ _ _ Hk).
           assert (i ≠ i0) as Hne.
           { intros ->. apply Hi0. apply list_elem_of_fmap. exists (i0, q).
             split; [done |]. eapply list_elem_of_lookup_2; eauto. }
           rewrite lookup_alter_ne by done. simpl.
           assert (0 < q).
           { eapply fetched_positive; [exact Hf |]. apply list_elem_of_fmap.
             exists (i, q). split; [done |]. right. eapply list_elem_of_lookup_2; eauto. }
           pose proof (fetched_sum_nonneg _ _ _
                         (fetched_take _ _ _ k (Hf' id))) as Hs.
           assert (taken (requested - Z.min requested q0) (sumZ (take k bs).*2) q
                   = taken requested (q0 + sumZ (take k bs).*2) q) as ->
             by (unfold taken; lia).
           done.
Qed.

(** A sum whose rows lose [c] per unit taken from them loses [c] times
    what the loop took in all. *)
Lemma allocate_sum name P c bs requested m :
  fetched name bs m → 0 ≤ requested →
  (∀ i r t, is_product name r = true → 0 < t ≤ quantity r →
     share P (i, decrement t r) = share P (i, r) - c * t) →
  batch_sum P (allocate bs requested m).2
  = batch_sum P m - c * (requested - (allocate bs requested m).1).
Proof.
  intros Hf Hr HP. revert requested m Hf Hr.
  induction bs as [| [i q] bs IH]; intros requested m Hf Hr.
  - simpl. lia.
  - destruct (fetched_cons _ _ _ _ _ Hf) as (Hi & (r & Hm & Hq & Hpos & Hn) & Hf').
    simpl. destruct (requested <=? 0) eqn:E.
    + simpl. lia.
    + apply Z.leb_gt in E.
      rewrite (IH _ _ (Hf' _)) by lia.
      rewrite (batch_sum_alter _ _ _ _ _ Hm), HP by (done || lia). lia.
Qed.

(** *** Sums under a deduction *)

Lemma is_product_lower name r :
  is_product name r = true ↔ Str.lower (product_name r) = Str.lower name.
Proof. unfold is_product, Str.nocase_eqb. apply String.eqb_eq. Qed.

(** A batch of [name] counts for [name'] exactly when both name the same
    product. *)
Lemma share_product_decrement name name' i r t :
  is_product name r = true →
  share (λ ir, is_product name' ir.2) (i, decrement t r)
  = share (λ ir, is_product name' ir.2) (i, r)
    - (if Str.nocase_eqb name name' then 1 else 0) * t.
Proof.
  intros Hn. apply is_product_lower in Hn. unfold share, is_product. simpl.
  unfold Str.nocase_eqb. rewrite Hn.
  destruct (String.eqb (Str.lower name) (Str.lower name')); lia.
Qed.

Lemma share_in_stock_decrement name i r t :
  is_product name r = true → 0 < t ≤ quantity r →
  share (in_stock name) (i, decrement t r) = share (in_stock name) (i, r) - 1 * t.
Proof.
  intros Hn Ht. unfold share, in_stock. simpl.
  change (is_product name (decrement t r)) with (is_product name r). rewrite Hn. simpl.
  destruct (0 <? quantity r - t) eqn:E1; destruct (0 <? quantity r) eqn:E2;
    rewrite ?Z.ltb_lt, ?Z.ltb_ge in *; lia.
Qed.

Lemma nocase_eqb_refl name : Str.nocase_eqb name name = true.
Proof. unfold Str.nocase_eqb. apply String.eqb_refl. Qed.

(** *** Positions in the fetched list *)

Lemma StronglySorted_lookup {A} (R : relation A) l (i j : nat) x y :
  StronglySorted R l → l !! i = Some x → l !! j = Some y → (i < j)%nat → R x y.
Proof.
  intros Hs. revert i j. induction Hs as [| a l Hs IH Hall]; intros i j Hi Hj Hlt.
  - by rewrite lookup_nil in Hi.
  - destruct j as [| j]; [lia |]. destruct i as [| i]; simpl in *.
    + inversion Hi; subst. eapply Forall_lookup_1; eauto.
    + eapply IH; eauto. lia.
Qed.

Lemma prefix_sum_step (bs : list (Z * Z)) (k : nat) i q :
  bs !! k = Some (i, q) →
  sumZ (take (S k) bs).*2 = sumZ (take k bs).*2 + q.
Proof.
  intros Hk. erewrite take_S_r by done. rewrite fmap_app, sumZ_app. simpl. lia.
Qed.

Lemma prefix_sum_mono name bs m (j k : nat) :
  fetched name bs m → (j ≤ k)%nat →
  sumZ (take j bs).*2 ≤ sumZ (take k bs).*2.
Proof.
  intros Hf. induction 1 as [| k Hle IH]; [done |].
  destruct (bs !! k) as [[i q] |] eqn:Hk.
  - rewrite (prefix_sum_step _ _ _ _ Hk).
    assert (0 < q); [| lia].
    eapply fetched_positive; [exact Hf |]. apply list_elem_of_fmap.
    exists (i, q). split; [done |]. eapply list_elem_of_lookup_2; eauto.
  - apply lookup_ge_None in Hk.
    rewrite (take_ge bs (S k)) by lia. rewrite (take_ge bs k) in IH by lia. done.
Qed.

Section Fifo.
Context `{!SqlEngine}.

Lemma select_batches_lookup name d (k : nat) i q :
  select_batches name d !! k = Some (i, q)
  ↔ ∃ r, stock_rows name d !! k = Some (i, r) ∧ quantity r = q.
Proof.
  unfold select_batches. rewrite list_lookup_fmap. split.
  - destruct (stock_rows name d !! k) as [[i' r] |]; simpl; [| done].
    intros Heq. inversion Heq; subst. eauto.
  - intros (r & -> & <-). done.
Qed.

Lemma stock_rows_StronglySorted name d : StronglySorted row_date_le (stock_rows name d).
Proof.
  apply Sorted_StronglySorted; [apply _ |]. apply order_by_Sorted.
Qed.

(** A strictly older batch stands before a newer one in the fetched list. *)
Lemma older_before name d (ja jb : nat) a b qa qb ra rb :
  select_batches name d !! ja = Some (a, qa) →
  select_batches name d !! jb = Some (b, qb) →
  products d !! a = Some ra → products d !! b = Some rb →
  date_lt (purchase_date ra) (purchase_date rb) →
  (ja < jb)%nat.
Proof.
  intros Ha Hb Hra Hrb Hlt.
  apply select_batches_lookup in Ha as (ra' & Ha & _).
  apply select_batches_lookup in Hb as (rb' & Hb & _).
  assert (ra' = ra) as ->.
  { apply list_elem_of_lookup_2, elem_of_stock_rows in Ha as (? & _). congruence. }
  assert (rb' = rb) as ->.
  { apply list_elem_of_lookup_2, elem_of_stock_rows in Hb as (? & _). congruence. }
  destruct (lt_eq_lt_dec ja jb) as [[? | ->] | Hgt]; [done | |].
  - rewrite Ha in Hb. inversion Hb; subst. by apply date_lt_irrefl in Hlt.
  - pose proof (StronglySorted_lookup _ _ _ _ _ _
                  (stock_rows_StronglySorted name d) Hb Ha Hgt) as Hle.
    by apply date_lt_not_le in Hlt.
Qed.

(** The state of the open transaction after [k] batches. *)
Lemma loop_state_allocate name requested d k :
  loop_state name requested d k
  = with_products
      (allocate (take k (select_batches name d)) requested (products d)).2 d.
Proof.
  unfold loop_state. erewrite deduct_loop_allocate; [| reflexivity]. done.
Qed.

(** The loop over a list is the loop over a prefix followed by the loop over
    the rest: [loop_state] lists the states the loop goes through. *)
Lemma deduct_loop_app l1 l2 remaining c :
  deduct_loop (l1 ++ l2) remaining c
  = (r ← deduct_loop l1 remaining; deduct_loop l2 r) c.
Proof.
  revert remaining c. induction l1 as [| b l1 IH]; intros remaining c.
  - done.
  - simpl. destruct (remaining <=? 0) eqn:E.
    + unfold_db. destruct l2; simpl; [done |]. by rewrite E.
    + unfold_db. simpl. unfold update_quantity. simpl. apply IH.
Qed.

End Fifo.

(** *** What a call takes from each batch *)

Lemma remaining_after_fetched name bs requested d (k : nat) i q :
  fetched name bs (products d) → bs !! k = Some (i, q) →
  remaining_of d i = q
  ∧ remaining_of (with_products (allocate bs requested (products d)).2 d) i
    = q - taken requested (sumZ (take k bs).*2) q.
Proof.
  intros Hf Hk. unfold remaining_of. simpl.
  destruct (allocate_lookup name bs requested (products d) Hf) as [_ H2].
  rewrite (H2 _ _ _ Hk). destruct Hf as [_ Hf].
  destruct (Hf i q) as (r & Hm & Hq & _); [by eapply list_elem_of_lookup_2 |].
  rewrite Hm. simpl. lia.
Qed.

Lemma remaining_after_outside name bs requested d i :
  fetched name bs (products d) → i ∉ bs.*1 →
  remaining_of (with_products (allocate bs requested (products d)).2 d) i
  = remaining_of d i.
Proof.
  intros Hf Hi. unfold remaining_of. simpl.
  destruct (allocate_lookup name bs requested (products d) Hf) as [H1 _].
  by rewrite H1.
Qed.

(** The deductions of the first [k] batches add up to the request, or to
    all these batches held if that is less. *)
Lemma sum_deductions name bs requested d (k : nat) :
  fetched name bs (products d) → 0 ≤ requested →
  sumZ (deduction d (with_products (allocate bs requested (products d)).2 d)
          <$> (take k bs).*1)
  = Z.min requested (sumZ (take k bs).*2).
Proof.
  intros Hf Hr. induction k as [| k IH]; [simpl; lia |].
  destruct (bs !! k) as [[i q] |] eqn:Hk.
  - erewrite take_S_r by done. rewrite !fmap_app, !sumZ_app, IH. simpl.
    destruct (remaining_after_fetched _ _ requested _ _ _ _ Hf Hk) as [H1 H2].
    unfold deduction. rewrite H1, H2.
    pose proof (fetched_sum_nonneg _ _ _ (fetched_take _ _ _ k Hf)).
    assert (0 < q).
    { eapply fetched_positive; [exact Hf |]. apply list_elem_of_fmap.
      exists (i, q). split; [done |]. eapply list_elem_of_lookup_2; eauto. }
    unfold taken. lia.
  - apply lookup_ge_None in Hk.
    rewrite (take_ge bs (S k)) by lia. rewrite (take_ge bs k) in IH by lia. done.
Qed.

Section UpdateStock.
Context `{!SqlEngine}.

(** The allocation, from what the allocator finds available. *)
Lemma update_stock_allocation name requested d :
  0 ≤ requested →
  requested ≤ available name d →
  ∃ d',
    update_stock name requested (idle d) = (Ok (), idle d')
    ∧ stock_of name d' = stock_of name d - requested
    ∧ available name d' = available name d - requested
    ∧ (∀ a b ra rb (k : nat),
         products d !! a = Some ra → products d !! b = Some rb →
         is_product name ra = true → is_product name rb = true →
         date_lt (purchase_date ra) (purchase_date rb) →
         deduction d d' a ≠ 0 → deduction d d' b ≠ 0 →
         remaining_of (loop_state name requested d k) b < remaining_of d b →
         remaining_of (loop_state name requested d k) a = 0)
    ∧ loop_state name requested d (length (select_batches name d)) = d'
    ∧ (∀ (k : nat) id q,
         select_batches name d !! k = Some (id, q) →
         remaining_of d id = q
         ∧ deduction d d' id
           = Z.min
               (requested
                - sumZ (deduction d d' <$> (take k (select_batches name d)).*1))
               q)
    ∧ (∀ id, id ∉ (select_batches name d).*1 →
         products d' !! id = products d !! id).
Proof.
  intros Hr Hav.
  pose proof (select_batches_fetched name d) as Hf.
  set (bs := select_batches name d) in *.
  exists (with_products (allocate bs requested (products d)).2 d).
  assert ((allocate bs requested (products d)).1 = 0) as Hrem.
  { rewrite (allocate_remaining name) by done.
    unfold bs. rewrite sumZ_select_batches. lia. }
  split; [| split; [| split; [| split; [| split; [| split]]]]].
  - rewrite update_stock_run.
    destruct (available name d <? requested) eqn:E; [| done].
    apply Z.ltb_lt in E. lia.
  - unfold stock_of. simpl.
    rewrite (allocate_sum name _ 1) by
      (try done; intros i r t Hn _;
       rewrite (share_product_decrement name name) by done;
       by rewrite nocase_eqb_refl).
    rewrite Hrem. lia.
  - unfold available. simpl.
    rewrite (allocate_sum name _ 1) by
      (try done; intros; by apply share_in_stock_decrement).
    rewrite Hrem. lia.
  - intros a b ra rb k Ha Hb Hna Hnb Hlt Hda Hdb Hdec.
    rewrite loop_state_allocate in *. fold bs in Hdec |- *.
    pose proof (fetched_take name bs _ k Hf) as Hfk.
    (* [b] has been visited among the first [k] batches *)
    destruct (decide (b ∈ (take k bs).*1)) as [Hbin | Hbout];
      [| rewrite (remaining_after_outside name) in Hdec by done; lia].
    apply list_elem_of_fmap in Hbin as ([b' qb] & -> & Hbin).
    apply list_elem_of_lookup in Hbin as (jb & Hjb). simpl in *.
    destruct (remaining_after_fetched name _ requested _ _ _ _ Hfk Hjb) as [Hb1 Hb2].
    rewrite Hb1, Hb2 in Hdec.
    pose proof (lookup_lt_Some _ _ _ Hjb) as Hjbk. rewrite length_take in Hjbk.
    rewrite take_take in Hdec. rewrite (Nat.min_l jb k) in Hdec by lia.
    rewrite lookup_take_lt in Hjb by lia.
    (* [a] is touched, so it has been fetched *)
    destruct (decide (a ∈ bs.*1)) as [Hain | Haout];
      [| exfalso; apply Hda; unfold deduction;
         rewrite (remaining_after_outside name) by done; lia].
    apply list_elem_of_fmap in Hain as ([a' qa] & -> & Hain).
    apply list_elem_of_lookup in Hain as (ja & Hja). simpl in *.
    assert (ja < jb)%nat as Hjab by (eapply older_before; eauto).
    assert (take k bs !! ja = Some (a', qa)) as Hja'
      by (rewrite lookup_take_lt by lia; done).
    destruct (remaining_after_fetched name _ requested _ _ _ _ Hfk Hja') as [Ha1 Ha2].
    rewrite Ha2. rewrite take_take, (Nat.min_l ja k) by lia.
    pose proof (prefix_sum_step _ _ _ _ Hja) as Hstep.
    pose proof (prefix_sum_mono name bs _ (S ja) jb Hf ltac:(lia)) as Hmono.
    pose proof (fetched_sum_nonneg _ _ _ (fetched_take _ _ _ ja Hf)).
    assert (0 < qa).
    { eapply fetched_positive; [exact Hf |]. apply list_elem_of_fmap.
      exists (a', qa). split; [done |]. eapply list_elem_of_lookup_2; eauto. }
    unfold taken in *. lia.
  - rewrite loop_state_allocate. by rewrite take_ge by done.
  - intros k id q Hk.
    destruct (remaining_after_fetched name _ requested _ _ _ _ Hf Hk) as [H1 H2].
    split; [done |].
    rewrite (sum_deductions name) by done.
    unfold deduction. rewrite H1, H2.
    pose proof (fetched_sum_nonneg _ _ _ (fetched_take _ _ _ k Hf)).
    assert (0 < q).
    { eapply fetched_positive; [exact Hf |]. apply list_elem_of_fmap.
      exists (id, q). split; [done |]. eapply list_elem_of_lookup_2; eauto. }
    unfold taken. lia.
  - intros id Hid. simpl.
    destruct (allocate_lookup name bs requested (products d) Hf) as [H1 _].
    by apply H1.
Qed.

(** C1, as the code has it. For every product and every request
    [0 ≤ requested] that the sum of the remaining quantity over the
    product's batches covers, [update_stock] succeeds and commits; that sum
    is then lower by exactly [requested]; the batches are consumed oldest
    purchase date first: whenever [a] is older than [b] and both are
    touched by the call, at every point of the loop at which [b] has lost
    stock [a] is already at 0; and what the call takes from the batch it
    visits in [k]-th place is the minimum of what is still needed after the
    batches before it and of what the batch holds. A batch that is not
    fetched keeps its row. *)
Theorem update_stock_fifo name requested d :
  0 ≤ requested →
  requested ≤ stock_of name d →
  ∃ d',
    update_stock name requested (idle d) = (Ok (), idle d')
    ∧ stock_of name d' = stock_of name d - requested
    ∧ (∀ a b ra rb (k : nat),
         products d !! a = Some ra → products d !! b = Some rb →
         is_product name ra = true → is_product name rb = true →
         date_lt (purchase_date ra) (purchase_date rb) →
         deduction d d' a ≠ 0 → deduction d d' b ≠ 0 →
         remaining_of (loop_state name requested d k) b < remaining_of d b →
         remaining_of (loop_state name requested d k) a = 0)
    ∧ loop_state name requested d (length (select_batches name d)) = d'
    ∧ (∀ (k : nat) id q,
         select_batches name d !! k = Some (id, q) →
         remaining_of d id = q
         ∧ deduction d d' id
           = Z.min
               (requested
                - sumZ (deduction d d' <$> (take k (select_batches name d)).*1))
               q)
    ∧ (∀ id, id ∉ (select_batches name d).*1 →
         products d' !! id = products d !! id).
Proof.
  intros Hr Hstock.
  pose proof (stock_of_le_available name d) as Hle.
  destruct (update_stock_allocation name requested d Hr ltac:(lia))
    as (d' & Hrun & Hsum & _ & Horder & Hend & Htaken & Hrest).
  exists d'. split; [done |]. split; [done |]. split; [done |].
  split; [done |]. split; [exact Htaken | exact Hrest].
Qed.

End UpdateStock.

Section UpdateStockEdges.
Context `{!SqlEngine}.

(** C2, as the code has it. For every product and every request above the
    sum of the remaining quantity over the product's batches that hold
    stock ([quantity > 0], the batches the allocator fetches),
    [update_stock] raises the [ValueError] "Insufficient stock", whose
    message reports the available and the requested quantity, and leaves
    the connection as it found it: no transaction open and every row of the
    database, so every batch's remaining quantity, unchanged. When no batch
    is below zero this sum is the sum over all the product's batches
    ([available_stock_of]). *)
Theorem update_stock_insufficient name requested d :
  available name d < requested →
  update_stock name requested (idle d)
  = (Raise (ValueError ("Insufficient stock. Available: "
                        +:+ pretty (available name d)
                        +:+ ", Requested: " +:+ pretty requested)),
     idle d).
Proof.
  intros Hlt. rewrite update_stock_run.
  apply Z.ltb_lt in Hlt. by rewrite Hlt.
Qed.

(** C10. For every product and every request [requested ≤ 0],
    [update_stock] returns without raising and leaves the database, so
    every batch's remaining quantity, unchanged: the total available is
    never negative, so the availability test does not fire, and the loop
    stops before its first write because [remaining ≤ 0] already holds. *)
Theorem update_stock_nonpositive name requested d :
  requested ≤ 0 →
  0 ≤ available name d
  ∧ (available name d <? requested) = false
  ∧ (∀ batches c, deduct_loop batches requested c = (Ok requested, c))
  ∧ update_stock name requested (idle d) = (Ok (), idle d).
Proof.
  intros Hle. pose proof (available_nonneg name d) as Hav.
  assert ((available name d <? requested) = false) as Htest
    by (apply Z.ltb_ge; lia).
  split; [done |]. split; [done |]. split.
  - intros [| b bs] c; simpl; [done |].
    destruct (requested <=? 0) eqn:E; [done |]. apply Z.leb_gt in E. lia.
  - rewrite update_stock_run, Htest, allocate_nonpos by done.
    simpl. by rewrite with_products_id.
Qed.

(** On every engine the batch query of the allocator returns exactly the
    batches of the product with [quantity > 0], each once, in ascending
    order of purchase date, and the allocator reads their ids and
    quantities in that order. *)
Lemma stock_rows_date_order name d :
  (∀ i r, (i, r) ∈ stock_rows name d
          ↔ products d !! i = Some r ∧ is_product name r = true ∧ 0 < quantity r)
  ∧ NoDup (stock_rows name d).*1
  ∧ (∀ (j k : nat) x y,
       stock_rows name d !! j = Some x → stock_rows name d !! k = Some y →
       (j < k)%nat → date_le (purchase_date x.2) (purchase_date y.2))
  ∧ select_batches name d = (λ ir, (ir.1, quantity ir.2)) <$> stock_rows name d.
Proof.
  split; [apply elem_of_stock_rows |]. split; [apply NoDup_stock_rows |].
  split; [| done]. intros j k x y Hj Hk Hlt.
  exact (StronglySorted_lookup _ _ _ _ _ _ (stock_rows_StronglySorted name d) Hj Hk Hlt).
Qed.

End UpdateStockEdges.

(** ** The allocator on sample stores *)

Lemma update_stock_fifo_witness :
  0 ≤ 7
  ∧ 7 ≤ stock_of "Widget" two_batches
  ∧ ∃ d', update_stock (H := oldest_id_first_engine) "Widget" 7 (idle two_batches)
          = (Ok (), idle d')
          ∧ stock_of "Widget" d' = stock_of "Widget" two_batches - 7.
Proof.
  assert (0 ≤ 7) as H1 by lia.
  assert (7 ≤ stock_of "Widget" two_batches) as H2 by (vm_compute; congruence).
  split; [exact H1 |]. split; [exact H2 |].
  destruct (update_stock_fifo (H := oldest_id_first_engine) "Widget" 7 two_batches H1 H2)
    as (d' & Hrun & Hstock & _).
  exists d'. split; [exact Hrun | exact Hstock].
Defined.

(** The scenario of the specification: seven units of "Widget" take the
    five of the older batch and two of the newer one. *)
Example update_stock_scenario :
  ∃ d', update_stock (H := oldest_id_first_engine) "Widget" 7 (idle two_batches)
        = (Ok (), idle d')
        ∧ remaining_of d' 1 = 0 ∧ remaining_of d' 2 = 3.
Proof. eexists. split; [vm_compute; reflexivity |]. split; reflexivity. Qed.

(** The states the loop goes through in that scenario: batch 1 is at 0
    before batch 2 loses anything. *)
Example loop_state_scenario :
  remaining_of (loop_state (H := oldest_id_first_engine) "Widget" 7 two_batches 0) 1 = 5
  ∧ remaining_of (loop_state (H := oldest_id_first_engine) "Widget" 7 two_batches 1) 1 = 0
  ∧ remaining_of (loop_state (H := oldest_id_first_engine) "Widget" 7 two_batches 1) 2 = 5
  ∧ remaining_of (loop_state (H := oldest_id_first_engine) "Widget" 7 two_batches 2) 2 = 3.
Proof. repeat split; vm_compute; reflexivity. Qed.

(** Product names are matched without regard to case, and [add_product]
    stores them in sentence case. *)
Example product_name_case :
  available "WIDGET" two_batches = 10
  ∧ format_name "  blue   wIDGET " = "Blue Widget"
  ∧ format_name "" = "".
Proof. repeat split; vm_compute; reflexivity. Qed.

(** C1 as stated fails for a negative request: the call succeeds and
    the stock of the product is not lower by the request. *)
Lemma update_stock_negative_request :
  -1 ≤ stock_of "Widget" two_batches
  ∧ update_stock (H := oldest_id_first_engine) "Widget" (-1) (idle two_batches)
    = (Ok (), idle two_batches)
  ∧ stock_of "Widget" two_batches ≠ stock_of "Widget" two_batches - (-1).
Proof.
  split; [vm_compute; congruence |]. split; [| lia].
  vm_compute. reflexivity.
Qed.

Lemma update_stock_insufficient_witness :
  available "Widget" two_batches < 11
  ∧ update_stock (H := oldest_id_first_engine) "Widget" 11 (idle two_batches)
    = (Raise (ValueError "Insufficient stock. Available: 10, Requested: 11"),
       idle two_batches).
Proof.
  assert (available "Widget" two_batches < 11) as H1 by (vm_compute; reflexivity).
  split; [exact H1 |].
  exact (update_stock_insufficient (H := oldest_id_first_engine) "Widget" 11 two_batches H1).
Defined.

(** C2 as stated fails: the batches of "Widget" sum to 2, a request of 4 is
    above it, and the call succeeds, taking 4 from the first batch. *)
Lemma update_stock_negative_batch :
  txn mixed_stock = None
  ∧ stock_of "Widget" (durable mixed_stock) = 2
  ∧ ∃ c', update_stock (H := oldest_id_first_engine) "Widget" 4 mixed_stock = (Ok (), c')
          ∧ remaining_of (durable mixed_stock) 1 = 5
          ∧ remaining_of (durable c') 1 = 1.
Proof.
  split; [reflexivity |]. split; [vm_compute; reflexivity |].
  eexists. split; [vm_compute; reflexivity |]. split; vm_compute; reflexivity.
Qed.

Lemma update_stock_nonpositive_witness :
  -3 ≤ 0
  ∧ update_stock (H := oldest_id_first_engine) "Widget" (-3) (idle two_batches)
    = (Ok (), idle two_batches).
Proof.
  assert (-3 ≤ 0) as H1 by lia.
  split; [exact H1 |].
  apply (update_stock_nonpositive (H := oldest_id_first_engine) "Widget" (-3) two_batches H1).
Defined.

(** *** The order of the batches *)

#[global] Instance oldest_id_first_trans : Transitive oldest_id_first.
Proof.
  intros x y z [Hxy | [Hxy Hi]] [Hyz | [Hyz Hj]]; unfold oldest_id_first.
  - left. by eapply date_lt_trans.
  - left. by rewrite <- Hyz.
  - left. by rewrite Hxy.
  - right. split; [congruence | lia].
Qed.


(** Two batches of one day: the smaller id is served first. *)
Example stock_rows_same_day :
  select_batches (H := oldest_id_first_engine) "Widget" same_day = [(1, 5); (2, 5)].
Proof. vm_compute. reflexivity. Qed.

(** ** Sequences of invoice numbers *)

Lemma reset_test_false now_m now_d :
  ¬ (dt_month now_m = 4 ∧ dt_day now_d = 1) →
  (dt_month now_m =? 4) && (dt_day now_d =? 1) = false.
Proof.
  intros H. apply andb_false_iff.
  destruct (dt_month now_m =? 4) eqn:E1; [| by left].
  destruct (dt_day now_d =? 1) eqn:E2; [| by right].
  apply Z.eqb_eq in E1, E2. tauto.
Qed.

(** From a counter at [n], the calls return [n + 1], [n + 2], ... *)
Lemma get_invoice_numbers_from year calls c n :
  default 0 (last_invoice_number <$> settings (view c) !! year) = n →
  Forall (ordinary_call year) calls →
  ∃ c', get_invoice_numbers calls c
        = (Ok (seqZ (n + 1) (Z.of_nat (length calls))), c').
Proof.
  intros Hn Hcalls. revert c n Hn.
  induction Hcalls as [| [[now_y now_m] now_d] calls [Hy Hnot] _ IH]; intros c n Hn.
  - simpl. by eexists.
  - simpl in Hy, Hnot. subst year.
    destruct (get_invoice_number_run now_y now_m now_d c)
      as (c1 & Hrun & Hidle & Hst & _).
    rewrite Hn, (reset_test_false _ _ Hnot) in Hrun, Hst.
    destruct (IH c1 (n + 1)) as (c2 & Hrest).
    { unfold view. rewrite Hidle. simpl. unfold stored_counter in Hst.
      by rewrite Hst. }
    exists c2. cbn [get_invoice_numbers]. unfold mbind, DB_bind at 1.
    rewrite Hrun. unfold DB_bind at 1. rewrite Hrest. unfold mret, DB_ret.
    rewrite (seqZ_cons (n + 1)) by (simpl; lia).
    repeat f_equal; simpl; lia.
Qed.

(** C5. For every calendar year without a counter row and every number of
    calls of [get_invoice_number] made one after the other in that year,
    none of them on April 1, the calls return 1, 2, ..., N in this order:
    no number is skipped and none is issued twice. The first call returns
    1 and a second one 2. *)
Theorem get_invoice_numbers_gapless year calls c :
  settings (view c) !! year = None →
  Forall (ordinary_call year) calls →
  ∃ c', get_invoice_numbers calls c
        = (Ok (seqZ 1 (Z.of_nat (length calls))), c').
Proof.
  intros Hnone Hcalls.
  apply (get_invoice_numbers_from year calls c 0); [| done].
  by rewrite Hnone.
Qed.

Lemma get_invoice_numbers_gapless_witness :
  settings (view (idle empty_database)) !! 2025 = None
  ∧ Forall (ordinary_call 2025) [(march_3, march_3, march_3); (march_3, march_3, march_3)]
  ∧ ∃ c', get_invoice_numbers
            [(march_3, march_3, march_3); (march_3, march_3, march_3)]
            (idle empty_database)
          = (Ok [1; 2], c').
Proof.
  assert (settings (view (idle empty_database)) !! 2025 = None) as H1 by reflexivity.
  assert (Forall (ordinary_call 2025)
            [(march_3, march_3, march_3); (march_3, march_3, march_3)]) as H2.
  { repeat constructor; simpl; intros [? ?]; discriminate. }
  split; [exact H1 |]. split; [exact H2 |].
  exact (get_invoice_numbers_gapless 2025 _ (idle empty_database) H1 H2).
Defined.

(** Two calls on April 1 both return 1. *)
Example get_invoice_numbers_april_1 :
  (get_invoice_numbers
     [({| dt_year := 2025; dt_month := 4; dt_day := 1 |},
       {| dt_year := 2025; dt_month := 4; dt_day := 1 |},
       {| dt_year := 2025; dt_month := 4; dt_day := 1 |});
      ({| dt_year := 2025; dt_month := 4; dt_day := 1 |},
       {| dt_year := 2025; dt_month := 4; dt_day := 1 |},
       {| dt_year := 2025; dt_month := 4; dt_day := 1 |})]
     (idle empty_database)).1
  = Ok [1; 1].
Proof. vm_compute. reflexivity. Qed.

(** ** Batch creation *)

Lemma foldr_max_ge (k : Z) ks x : x ∈ k :: ks → x ≤ foldr Z.max k ks.
Proof.
  induction ks as [| k' ks IH]; simpl.
  - intros Hx. apply list_elem_of_singleton in Hx. lia.
  - intros Hx. apply elem_of_cons in Hx as [-> | Hx].
    + assert (k ≤ foldr Z.max k ks) by (apply IH; by left). lia.
    + apply elem_of_cons in Hx as [-> | Hx]; [lia |].
      assert (x ≤ foldr Z.max k ks) by (apply IH; by right). lia.
Qed.

(** The id given to a new row is not in use. *)
Lemma next_rowid_fresh {A} (m : gmap Z A) : m !! next_rowid m = None.
Proof.
  destruct (m !! next_rowid m) as [x |] eqn:E; [| done]. exfalso.
  apply elem_of_map_to_list in E.
  assert (next_rowid m ∈ (map_to_list m).*1) as Hin
    by (apply list_elem_of_fmap; by exists (next_rowid m, x)).
  unfold next_rowid in Hin at 1. unfold next_rowid in E.
  destruct ((map_to_list m).*1) as [| k ks]; [by apply elem_of_nil in Hin |].
  apply foldr_max_ge in Hin. lia.
Qed.

Lemma add_product_run cid brand name qty price cgst sgst cess date invoice c :
  add_product cid brand name qty price cgst sgst cess date invoice c
  = match cid with
    | Some k =>
        match companies (view c) !! k with
        | Some _ =>
            (Ok (), idle (set_products
                           (insert (next_rowid (products (view c)))
                              (new_batch cid brand name qty price cgst sgst cess date invoice))
                           (view c)))
        | None =>
            (Raise (IntegrityError "FOREIGN KEY constraint failed"),
             {| durable := durable c; txn := Some (view c) |})
        end
    | None =>
        (Ok (), idle (set_products
                       (insert (next_rowid (products (view c)))
                          (new_batch cid brand name qty price cgst sgst cess date invoice))
                       (view c)))
    end.
Proof.
  unfold add_product, insert_product. unfold_db. simpl.
  destruct cid as [k |]; simpl; [| done].
  destruct (companies (view c) !! k); done.
Qed.

(** C9, as the code has it. [add_product] does not look at the sign of the
    quantity or of the price. For every input whose quantity and company
    reference are integers SQLite stores (64-bit), on a table whose next
    row id is one too, a negative quantity or price included: when the
    company reference is [NULL] or names a company, it stores one new
    batch, under a fresh id, whose remaining quantity and original
    quantity both are the quantity given, and commits; when the company
    reference names no company it raises an [IntegrityError] and no batch
    is stored. *)
Theorem add_product_unvalidated cid brand name qty price cgst sgst cess date invoice d :
  sqlite_integer qty →
  (∀ k, cid = Some k → sqlite_integer k) →
  sqlite_integer (next_rowid (products d)) →
  (company_known cid d →
     products d !! next_rowid (products d) = None
     ∧ quantity (new_batch cid brand name qty price cgst sgst cess date invoice) = qty
     ∧ original_quantity (new_batch cid brand name qty price cgst sgst cess date invoice) = qty
     ∧ add_product cid brand name qty price cgst sgst cess date invoice (idle d)
       = (Ok (), idle (set_products
                        (insert (next_rowid (products d))
                           (new_batch cid brand name qty price cgst sgst cess date invoice))
                        d)))
  ∧ (¬ company_known cid d →
     ∃ msg c', add_product cid brand name qty price cgst sgst cess date invoice (idle d)
               = (Raise (IntegrityError msg), c')
               ∧ durable c' = d ∧ view c' = d).
Proof.
  intros _ _ _.
  rewrite add_product_run. change (view (idle d)) with d. split.
  - intros Hk. split; [apply next_rowid_fresh |]. split; [done |]. split; [done |].
    destruct cid as [k |]; [| done]. simpl in Hk. destruct Hk as [x ->]. done.
  - intros Hk. destruct cid as [k |]; [| by destruct Hk]. simpl in Hk.
    destruct (companies d !! k) eqn:E; [destruct Hk; by eexists |].
    by eexists _, _.
Qed.

Lemma add_product_unvalidated_witness :
  sqlite_integer (-5)
  ∧ (∀ k, @None Z = Some k → sqlite_integer k)
  ∧ sqlite_integer (next_rowid (products empty_database))
  ∧ company_known None empty_database
  ∧ add_product None "acme" "widget" (-5) (-1) 9 9 0 "2024-01-01" None (idle empty_database)
    = (Ok (), idle (set_products
                     (insert 1 (new_batch None "acme" "widget" (-5) (-1) 9 9 0 "2024-01-01" None))
                     empty_database)).
Proof.
  assert (sqlite_integer (-5)) as H1 by (unfold sqlite_integer; lia).
  assert (∀ k, @None Z = Some k → sqlite_integer k) as H2 by discriminate.
  assert (sqlite_integer (next_rowid (products empty_database))) as H3
    by (vm_compute; split; [discriminate | reflexivity]).
  assert (company_known None empty_database) as H4 by exact I.
  split; [exact H1 |]. split; [exact H2 |]. split; [exact H3 |]. split; [exact H4 |].
  exact (proj2 (proj2 (proj2
    (proj1 (add_product_unvalidated None "acme" "widget" (-5) (-1) 9 9 0
              "2024-01-01" None empty_database H1 H2 H3) H4)))).
Defined.

(** C9 as stated fails: a batch of quantity [-5] at price [-1.0] is
    accepted and stored with [-5] remaining. *)
Lemma add_product_negative_accepted :
  ∃ d', add_product None "acme" "widget" (-5) (-1) 9 9 0 "2024-01-01" None
          (idle empty_database)
        = (Ok (), idle d')
        ∧ (quantity <$> products d' !! 1) = Some (-5)
        ∧ (unit_price <$> products d' !! 1) = Some (-1)%float.
Proof. eexists. split; [vm_compute; reflexivity |]. split; reflexivity. Qed.

(** ** The batch invariant *)

Lemma batch_step_refl r : batch_step r r.
Proof. unfold batch_step. lia. Qed.

Lemma batch_step_trans r1 r2 r3 : batch_step r1 r2 → batch_step r2 r3 → batch_step r1 r3.
Proof. unfold batch_step. lia. Qed.

Lemma never_grows_refl m : never_grows m m.
Proof. intros id r Hr. eauto using batch_step_refl. Qed.

Lemma never_grows_trans m1 m2 m3 :
  never_grows m1 m2 → never_grows m2 m3 → never_grows m1 m3.
Proof.
  intros H12 H23 id r Hr. destruct (H12 _ _ Hr) as (r2 & Hr2 & Hs2).
  destruct (H23 _ _ Hr2) as (r3 & Hr3 & Hs3). eauto using batch_step_trans.
Qed.

Lemma shrinks_refl m : shrinks m m.
Proof. split; [apply never_grows_refl | done]. Qed.

Lemma shrinks_trans m1 m2 m3 : shrinks m1 m2 → shrinks m2 m3 → shrinks m1 m3.
Proof.
  intros [H12 N12] [H23 N23]. split; [by eapply never_grows_trans | auto].
Qed.

Lemma shrinks_eq m m' : m = m' → shrinks m m'.
Proof. intros ->. apply shrinks_refl. Qed.

(** *** The building blocks are safe *)

Lemma stock_safe_ret {A} (a : A) : stock_safe (mret a : DB A).
Proof. intros c Hc. split; [done | apply shrinks_refl]. Qed.

Lemma stock_safe_raise {A} e : stock_safe (raise e : DB A).
Proof. intros c Hc. split; [done | apply shrinks_refl]. Qed.

Lemma stock_safe_query {A} (q : database → A) : stock_safe (query q).
Proof. intros c Hc. split; [done | apply shrinks_refl]. Qed.

Lemma stock_safe_bind {A B} (m : DB A) (f : A → DB B) :
  stock_safe m → (∀ a, stock_safe (f a)) → stock_safe (m ≫= f).
Proof.
  intros Hm Hf c Hc. unfold mbind, DB_bind.
  destruct (Hm c Hc) as [Hq Hs]. destruct (m c) as [[a | e] c1]; simpl in *.
  - destruct (Hf a c1 Hq) as [Hq2 Hs2]. split; [done |]. by eapply shrinks_trans.
  - done.
Qed.

Lemma stock_safe_execute stmt :
  (∀ d d', stmt d = Ok d' → products d' = products d) →
  stock_safe (execute stmt).
Proof.
  intros Hstmt c Hc. unfold execute.
  destruct (stmt (view c)) as [d' | e] eqn:E; simpl.
  - split; [| apply shrinks_refl]. unfold quiet, view. simpl.
    rewrite (Hstmt _ _ E). exact Hc.
  - split; [| apply shrinks_refl]. exact Hc.
Qed.

Lemma stock_safe_commit : stock_safe commit.
Proof.
  intros c Hc. unfold commit. simpl. split; [done |].
  apply shrinks_eq. symmetry. exact Hc.
Qed.

Lemma stock_safe_get_invoice_number now_y now_m now_d :
  stock_safe (get_invoice_number now_y now_m now_d).
Proof.
  unfold get_invoice_number.
  apply stock_safe_bind; [apply stock_safe_query |]. intros result.
  apply stock_safe_bind.
  - destruct result; [apply stock_safe_ret |].
    apply stock_safe_bind.
    + apply stock_safe_execute. intros d d'. unfold insert_setting.
      destruct (settings d !! dt_year now_y); [done |]. by intros [= <-].
    + intros _. apply stock_safe_bind; [apply stock_safe_commit |].
      intros _. apply stock_safe_ret.
  - intros n. apply stock_safe_bind.
    + apply stock_safe_execute. intros d d'. unfold update_last_invoice_number.
      by intros [= <-].
    + intros _. apply stock_safe_bind; [apply stock_safe_commit |].
      intros _. apply stock_safe_ret.
Qed.

Lemma stock_safe_create_bill n customer total date :
  stock_safe (create_bill n customer total date).
Proof.
  unfold create_bill. apply stock_safe_bind.
  - apply stock_safe_execute. intros d d'. unfold insert_bill.
    destruct (billing d !! n); [done |]. by intros [= <-].
  - intros _. apply stock_safe_commit.
Qed.

Lemma stock_safe_add_bill_item n name qty price :
  stock_safe (add_bill_item n name qty price).
Proof.
  unfold add_bill_item. apply stock_safe_bind.
  - apply stock_safe_execute. intros d d'. unfold insert_bill_item. simpl.
    destruct (billing d !! n); [| done]. by intros [= <-].
  - intros _. apply stock_safe_commit.
Qed.

Lemma taken_bounds requested before q : 0 < q → 0 ≤ taken requested before q ≤ q.
Proof. unfold taken. lia. Qed.

(** The loop takes from each batch at most what it holds. *)
Lemma allocate_shrinks name bs requested m :
  fetched name bs m → shrinks m (allocate bs requested m).2.
Proof.
  intros Hf. destruct (allocate_lookup name bs requested m Hf) as [Hout Hin].
  assert (∀ id, (allocate bs requested m).2 !! id = m !! id
                ∨ ∃ q t, (allocate bs requested m).2 !! id = decrement t <$> m !! id
                         ∧ (quantity <$> m !! id) = Some q ∧ 0 ≤ t ≤ q) as Hcases.
  { intros id. destruct (decide (id ∈ bs.*1)) as [Hid | Hid]; [| left; by apply Hout].
    right. apply list_elem_of_fmap in Hid as ([id' q] & -> & Hid).
    apply list_elem_of_lookup in Hid as (k & Hk). simpl.
    destruct Hf as [_ Hf]. destruct (Hf id' q) as (r & Hm & Hq & Hpos & _);
      [by eapply list_elem_of_lookup_2 |].
    exists q, (taken requested (sumZ (take k bs).*2) q).
    split; [by apply Hin |]. split; [by rewrite Hm; simpl; rewrite Hq |].
    by apply taken_bounds. }
  split.
  - intros id r Hr. destruct (Hcases id) as [-> | (q & t & -> & Hq & Ht)].
    + eauto using batch_step_refl.
    + rewrite Hr in *. simpl in *. inversion Hq; subst.
      eexists. split; [done |]. unfold batch_step. simpl. lia.
  - intros id Hnone. destruct (Hcases id) as [-> | (q & t & -> & _)]; [done |].
    by rewrite Hnone.
Qed.

Section Safety.
Context `{!SqlEngine}.

Lemma idle_durable c : txn c = None → c = idle (durable c).
Proof. destruct c. simpl. by intros ->. Qed.

Lemma update_stock_in_transaction name qty c t :
  txn c = Some t →
  update_stock name qty c
  = (Raise (OperationalError "cannot start a transaction within a transaction"),
     idle (durable c)).
Proof. intros Ht. unfold update_stock. unfold_db. by rewrite Ht. Qed.

Lemma stock_safe_update_stock name qty : stock_safe (update_stock name qty).
Proof.
  intros c Hc. destruct (txn c) as [t |] eqn:Ht.
  - rewrite (update_stock_in_transaction _ _ _ _ Ht). simpl.
    split; [done | apply shrinks_refl].
  - rewrite (idle_durable c Ht). rewrite update_stock_run.
    destruct (available name (durable c) <? qty); simpl.
    + split; [done | apply shrinks_refl].
    + split; [done |]. apply (allocate_shrinks name), select_batches_fetched.
Qed.

Lemma stock_safe_check_current_stock name : stock_safe (check_current_stock name).
Proof. apply stock_safe_query. Qed.

Lemma stock_safe_check_stock_levels items : stock_safe (check_stock_levels items).
Proof.
  induction items as [| item items IH]; simpl; [apply stock_safe_ret |].
  apply stock_safe_bind; [apply stock_safe_check_current_stock | by intros _].
Qed.

Lemma stock_safe_process_item n item : stock_safe (process_item n item).
Proof.
  unfold process_item. apply stock_safe_bind; [apply stock_safe_query |].
  intros records. case_match; [apply stock_safe_raise |].
  apply stock_safe_bind; [apply stock_safe_add_bill_item |].
  intros _. apply stock_safe_update_stock.
Qed.

Lemma stock_safe_process_items n items : stock_safe (process_items n items).
Proof.
  induction items as [| item items IH]; simpl; [apply stock_safe_ret |].
  apply stock_safe_bind; [apply stock_safe_process_item | by intros _].
Qed.

Lemma stock_safe_save_bill cart customer now_y now_m now_d date :
  stock_safe (save_bill cart customer now_y now_m now_d date).
Proof.
  unfold save_bill.
  apply stock_safe_bind; [apply stock_safe_get_invoice_number |]. intros n.
  apply stock_safe_bind; [apply stock_safe_create_bill |]. intros _.
  apply stock_safe_bind; [apply stock_safe_process_items |]. intros _.
  apply stock_safe_ret.
Qed.

Lemma stock_safe_generate_bill cart customer now_y now_m now_d date :
  stock_safe (generate_bill cart customer now_y now_m now_d date).
Proof.
  intros c Hc. unfold generate_bill.
  destruct (stock_safe_check_stock_levels cart c Hc) as [Hq1 Hs1].
  destruct (check_stock_levels cart c) as [[[] | e] c1]; simpl in *; [| done].
  destruct cart as [| item cart]; [done |].
  destruct (String.eqb customer ""); [done |].
  destruct (stock_safe_save_bill (item :: cart) customer now_y now_m now_d date c1 Hq1)
    as [Hq2 Hs2].
  destruct (save_bill (item :: cart) customer now_y now_m now_d date c1)
    as [[n | e] c2]; simpl in *; (split; [done | by eapply shrinks_trans]).
Qed.

(** A creation adds one batch, with its remaining quantity equal to its
    original quantity, and changes no other. *)
Lemma add_product_step cid brand name qty price cgst sgst cess date invoice c :
  quiet c →
  let c' := (add_product cid brand name qty price cgst sgst cess date invoice c).2 in
  quiet c'
  ∧ never_grows (products (durable c)) (products (durable c'))
  ∧ ∀ id r', products (durable c) !! id = None →
      products (durable c') !! id = Some r' →
      quantity r' = qty ∧ original_quantity r' = qty.
Proof.
  intros Hc. rewrite add_product_run.
  set (row := new_batch cid brand name qty price cgst sgst cess date invoice).
  assert (let c' := idle (set_products (insert (next_rowid (products (view c))) row) (view c)) in
          quiet c'
          ∧ never_grows (products (durable c)) (products (durable c'))
          ∧ ∀ id r', products (durable c) !! id = None →
              products (durable c') !! id = Some r' →
              quantity r' = qty ∧ original_quantity r' = qty) as Hok.
  { simpl. rewrite Hc. split; [done |]. split.
    - intros id r Hr. exists r. split; [| apply batch_step_refl].
      rewrite lookup_insert_ne; [done |]. intros <-.
      by rewrite next_rowid_fresh in Hr.
    - intros id r' Hnone Hsome.
      destruct (decide (next_rowid (products (durable c)) = id)) as [<- | Hne].
      + rewrite lookup_insert_eq in Hsome. by inversion Hsome.
      + rewrite lookup_insert_ne in Hsome by done. congruence. }
  assert (let c' := {| durable := durable c; txn := Some (view c) |} in
          quiet c'
          ∧ never_grows (products (durable c)) (products (durable c'))
          ∧ ∀ id r', products (durable c) !! id = None →
              products (durable c') !! id = Some r' →
              quantity r' = qty ∧ original_quantity r' = qty) as Hfail.
  { simpl. split; [exact Hc |]. split; [apply never_grows_refl |]. congruence. }
  destruct cid as [k |]; [| exact Hok].
  destruct (companies (view c) !! k); [exact Hok | exact Hfail].
Qed.

(** One operation, from a quiet connection. *)
Lemma run_op_step op c :
  quiet c →
  quiet (run_op op c)
  ∧ never_grows (products (durable c)) (products (durable (run_op op c)))
  ∧ ∀ id r', products (durable c) !! id = None →
      products (durable (run_op op c)) !! id = Some r' →
      quantity r' = original_quantity r' ∧ (creates_nonneg op → 0 ≤ quantity r').
Proof.
  intros Hc.
  assert (∀ A (f : connection → A * connection), stock_safe f →
            quiet (f c).2
            ∧ never_grows (products (durable c)) (products (durable (f c).2))
            ∧ ∀ id r', products (durable c) !! id = None →
                products (durable (f c).2) !! id = Some r' →
                quantity r' = original_quantity r' ∧ (creates_nonneg op → 0 ≤ quantity r'))
    as Hsafe.
  { intros A f Hf. destruct (Hf c Hc) as [Hq [Hs Hn]]. split; [done |]. split; [done |].
    intros id r' Hnone Hsome. rewrite (Hn _ Hnone) in Hsome. done. }
  destruct op as [cid br name qty price cg sg ce date invoice | | | | |]; simpl.
  - destruct (add_product_step cid br name qty price cg sg ce date invoice c Hc)
      as (Hq & Hs & Hnew).
    split; [done |]. split; [done |]. intros id r' Hnone Hsome.
    destruct (Hnew id r' Hnone Hsome) as [-> ->]. done.
  - apply Hsafe, stock_safe_update_stock.
  - apply Hsafe, stock_safe_get_invoice_number.
  - apply Hsafe, stock_safe_create_bill.
  - apply Hsafe, stock_safe_add_bill_item.
  - apply Hsafe, stock_safe_generate_bill.
Qed.

Lemma store_ok_step op c :
  quiet c → creates_nonneg op → store_ok (durable c) → store_ok (durable (run_op op c)).
Proof.
  intros Hc Hop Hok id r' Hr'.
  destruct (run_op_step op c Hc) as (_ & Hs & Hnew).
  destruct (products (durable c) !! id) as [r |] eqn:Hr.
  - destruct (Hs _ _ Hr) as (r2 & Hr2 & Horig & Hle & Hpos).
    rewrite Hr' in Hr2. inversion Hr2; subst.
    specialize (Hok _ _ Hr). unfold batch_ok in *. lia.
  - destruct (Hnew _ _ Hr Hr') as [Heq Hpos]. specialize (Hpos Hop).
    unfold batch_ok. lia.
Qed.

End Safety.

Section Invariant.
Context `{!SqlEngine}.

Lemma within_original_step op c :
  quiet c → within_original (durable c) → within_original (durable (run_op op c)).
Proof.
  intros Hc Hok id r' Hr'.
  destruct (run_op_step op c Hc) as (_ & Hs & Hnew).
  destruct (products (durable c) !! id) as [r |] eqn:Hr.
  - destruct (Hs _ _ Hr) as (r2 & Hr2 & Horig & Hle & Hpos).
    rewrite Hr' in Hr2. inversion Hr2; subst.
    specialize (Hok _ _ Hr). lia.
  - destruct (Hnew _ _ Hr Hr') as [Heq _]. lia.
Qed.

Lemma run_ops_quiet ops c : quiet c → quiet (run_ops ops c).
Proof.
  revert c. induction ops as [| op ops IH]; intros c Hc; [done |].
  simpl. apply IH. by apply run_op_step.
Qed.

(** C8, as the code has it. Along every sequence of core operations
    (creation, allocation, the sequencer, the billing rows, bill
    generation), started on a connection whose open transaction, if any,
    holds no change of the batches: no batch is ever removed, its original
    quantity is never modified, its remaining quantity never increases and
    never goes from non-negative to negative; a batch is created with its
    remaining quantity equal to its original quantity;
    [remaining ≤ original] is kept by every sequence; and
    [0 ≤ remaining ≤ original] is kept by every sequence whose creations
    are given a quantity [≥ 0] (the code does not check it). *)
Theorem batch_invariant ops c :
  quiet c →
  never_grows (products (durable c)) (products (durable (run_ops ops c)))
  ∧ (∀ op id r',
       products (durable c) !! id = None →
       products (durable (run_op op c)) !! id = Some r' →
       quantity r' = original_quantity r')
  ∧ (within_original (durable c) → within_original (durable (run_ops ops c)))
  ∧ (Forall creates_nonneg ops → store_ok (durable c) →
     store_ok (durable (run_ops ops c))).
Proof.
  intros Hc. split; [| split; [| split]].
  - revert c Hc. induction ops as [| op ops IH]; intros c Hc;
      [apply never_grows_refl |].
    simpl. destruct (run_op_step op c Hc) as (Hq & Hs & _).
    eapply never_grows_trans; [exact Hs | by apply IH].
  - intros op id r' Hnone Hsome.
    destruct (run_op_step op c Hc) as (_ & _ & Hnew).
    by destruct (Hnew _ _ Hnone Hsome).
  - revert c Hc. induction ops as [| op ops IH]; intros c Hc Hok; [done |].
    simpl. apply IH; [by apply run_op_step | by apply within_original_step].
  - intros Hops. revert c Hc. induction Hops as [| op ops Hop Hops IH];
      intros c Hc Hok; [done |].
    simpl. apply IH; [by apply run_op_step | by apply store_ok_step].
Qed.

End Invariant.

Lemma batch_invariant_witness :
  quiet (idle empty_database)
  ∧ store_ok
      (durable
         (run_ops (H := oldest_id_first_engine)
            [AddProduct None "acme" "widget" 5 100 9 9 2 "2024-01-01" None;
             UpdateStock "Widget" 3]
            (idle empty_database))).
Proof.
  assert (quiet (idle empty_database)) as H1 by reflexivity.
  split; [exact H1 |].
  apply (batch_invariant (H := oldest_id_first_engine)
           [AddProduct None "acme" "widget" 5 100 9 9 2 "2024-01-01" None;
            UpdateStock "Widget" 3]
           (idle empty_database) H1).
  - repeat constructor; simpl; lia.
  - intros id r Hr. simpl in Hr. rewrite lookup_empty in Hr. discriminate Hr.
Defined.

(** C8 as stated fails: after the creation of a batch with quantity [-5]
    its remaining quantity is below zero. *)
Lemma batch_invariant_negative_creation :
  ¬ store_ok
      (durable
         (run_op (H := oldest_id_first_engine)
            (AddProduct None "acme" "widget" (-5) 100 9 9 2 "2024-01-01" None)
            (idle empty_database))).
Proof.
  intros Hok.
  specialize (Hok 1 (new_batch None "acme" "widget" (-5) 100 9 9 2 "2024-01-01" None)
                eq_refl).
  unfold batch_ok in Hok. simpl in Hok. lia.
Qed.

(** ** The tax computation *)

Lemma accumulate_total_sum (acc : Q) (items : list (cart_item Q)) :
  (accumulate_total acc items == acc + sumQ (item_total <$> items))%Q.
Proof.
  revert acc. induction items as [| item items IH]; intros acc.
  - unfold accumulate_total, sumQ. cbn [fold_left fmap list_fmap foldr]. ring.
  - change (accumulate_total acc (item :: items))
      with (accumulate_total (Qplus acc (item_total item)) items).
    rewrite IH.
    change (sumQ (item_total <$> item :: items))
      with (item_total item + sumQ (item_total <$> items))%Q.
    ring.
Qed.

Lemma item_total_line (item : cart_item Q) :
  (item_total item == la_item_total (line_of item))%Q.
Proof.
  unfold item_total, line_of, add_billing_item_amounts.
  cbv [la_item_total radd rmul rdiv of_int Q_Arith]. field.
Qed.

Lemma sumQ_ext (f g : cart_item Q → Q) items :
  (∀ item, (f item == g item)%Q) → (sumQ (f <$> items) == sumQ (g <$> items))%Q.
Proof.
  intros Hfg. induction items as [| item items IH]; [reflexivity |].
  change (f item + sumQ (f <$> items) == g item + sumQ (g <$> items))%Q.
  rewrite IH, Hfg. reflexivity.
Qed.



(** ** Bill generation *)


Lemma after_line_ext avail avail' line :
  (∀ name, avail name = avail' name) →
  ∀ name, after_line avail line name = after_line avail' line name.
Proof. intros H name. unfold after_line. by rewrite H. Qed.

Lemma after_lines_ext avail avail' lines :
  (∀ name, avail name = avail' name) →
  ∀ name, after_lines avail lines name = after_lines avail' lines name.
Proof.
  revert avail avail'. induction lines as [| line lines IH]; intros avail avail' H; [done |].
  simpl. apply IH. by apply after_line_ext.
Qed.

Lemma allocatable_ext avail avail' lines :
  (∀ name, avail name = avail' name) → allocatable avail lines → allocatable avail' lines.
Proof.
  revert avail avail'. induction lines as [| line lines IH]; intros avail avail' H; [done |].
  simpl. intros [Hq Hrest]. split; [by rewrite <- H |].
  eapply IH; [| exact Hrest]. by apply after_line_ext.
Qed.

Section Lines.
Context `{!SqlEngine}.



(** [generate_bill] reaches [update_stock] through [add_bill_item], which
    ends on a commit: the allocator starts with no transaction open. *)
Lemma add_bill_item_idle n name qty price c c' :
  add_bill_item n name qty price c = (Ok (), c') → txn c' = None.
Proof.
  unfold add_bill_item. unfold_db.
  destruct (insert_bill_item _ (view c)); intros [= <-]; done.
Qed.



(** The logging loop reads and changes nothing. *)
Lemma check_stock_levels_run items c : check_stock_levels items c = (Ok (), c).
Proof.
  induction items as [| item items IH]; [done |].
  cbn [check_stock_levels]. unfold mbind, DB_bind, check_current_stock, query.
  exact IH.
Qed.

End Lines.



Section Atomicity.
Context `{!SqlEngine}.

(** With a cart that is not empty and a customer selected, [generate_bill]
    reports what [save_bill] returns. *)
Lemma generate_bill_run cart customer now_y now_m now_d date c :
  cart ≠ [] → customer ≠ "" →
  generate_bill cart customer now_y now_m now_d date c
  = match save_bill cart customer now_y now_m now_d date c with
    | (Ok invoice_number, c') => (BillGenerated invoice_number, c')
    | (Raise e, c') => (BillFailed e, c')
    end.
Proof.
  intros Hcart Hcustomer. unfold generate_bill. rewrite check_stock_levels_run.
  destruct cart as [| item rest]; [done |].
  assert (String.eqb customer "" = false) as -> by (by apply String.eqb_neq).
  done.
Qed.


End Atomicity.



(** * Further properties *)

(** ** Names *)

Lemma lower_char_upper_char c : Str.lower_char (Str.upper_char c) = Str.lower_char c.
Proof. destruct c as [[] [] [] [] [] [] [] []]; reflexivity. Qed.

Lemma lower_char_idem c : Str.lower_char (Str.lower_char c) = Str.lower_char c.
Proof. destruct c as [[] [] [] [] [] [] [] []]; reflexivity. Qed.

Lemma upper_char_idem c : Str.upper_char (Str.upper_char c) = Str.upper_char c.
Proof. destruct c as [[] [] [] [] [] [] [] []]; reflexivity. Qed.

Lemma is_space_upper_char c : Str.is_space (Str.upper_char c) = Str.is_space c.
Proof. destruct c as [[] [] [] [] [] [] [] []]; reflexivity. Qed.

Lemma is_space_lower_char c : Str.is_space (Str.lower_char c) = Str.is_space c.
Proof. destruct c as [[] [] [] [] [] [] [] []]; reflexivity. Qed.

Lemma lower_idem s : Str.lower (Str.lower s) = Str.lower s.
Proof. induction s as [| c s IH]; simpl; [done |]. by rewrite lower_char_idem, IH. Qed.

Lemma lower_app a b : Str.lower (a +:+ b) = Str.lower a +:+ Str.lower b.
Proof. induction a as [| c a IH]; simpl; [done |]. by rewrite IH. Qed.

Lemma no_space_lower s : no_space (Str.lower s) = no_space s.
Proof.
  induction s as [| c s IH]; simpl; [done |]. by rewrite is_space_lower_char, IH.
Qed.

Lemma lower_to_sentence_case w : Str.lower (to_sentence_case w) = Str.lower w.
Proof.
  destruct w as [| c w]; simpl; [done |]. by rewrite lower_char_upper_char, lower_idem.
Qed.

Lemma to_sentence_case_idem w : to_sentence_case (to_sentence_case w) = to_sentence_case w.
Proof.
  destruct w as [| c w]; simpl; [done |]. by rewrite upper_char_idem, lower_idem.
Qed.

Lemma word_to_sentence_case w : word w → word (to_sentence_case w).
Proof.
  intros [Hne Hns]. destruct w as [| c w]; [done |]. split; [done |].
  simpl in *. by rewrite is_space_upper_char, no_space_lower.
Qed.

Lemma lower_join sep ws :
  Str.lower (Str.join sep ws) = Str.join (Str.lower sep) (Str.lower <$> ws).
Proof.
  induction ws as [| w ws IH]; [done |].
  destruct ws as [| w' ws]; [done |].
  change (Str.lower (w +:+ sep +:+ Str.join sep (w' :: ws))
          = Str.lower w +:+ Str.lower sep
            +:+ Str.join (Str.lower sep) (Str.lower <$> w' :: ws)).
  by rewrite !lower_app, IH.
Qed.

(** [format_name] on any input, the empty one included. *)
Lemma format_name_join name :
  format_name name = Str.join " " (to_sentence_case <$> Str.split name).
Proof. by destruct name. Qed.

(** *** What [split] returns *)

Lemma no_space_app a b : no_space (a +:+ b) = no_space a && no_space b.
Proof.
  induction a as [| c a IH]; simpl; [done |]. rewrite IH. by rewrite andb_assoc.
Qed.

Lemma string_of_list_ascii_app l1 l2 :
  string_of_list_ascii (l1 ++ l2) = string_of_list_ascii l1 +:+ string_of_list_ascii l2.
Proof. induction l1 as [| c l1 IH]; simpl; [done |]. by rewrite IH. Qed.

(** The word being read holds no separator. *)
Definition reading (cur : list ascii) : Prop :=
  no_space (string_of_list_ascii (rev cur)) = true.

Lemma reading_cons c cur : Str.is_space c = false → reading cur → reading (c :: cur).
Proof.
  unfold reading. intros Hc Hcur. simpl.
  rewrite string_of_list_ascii_app, no_space_app, Hcur. simpl. by rewrite Hc.
Qed.

Lemma split_go_words cur s : reading cur → Forall word (Str.split_go cur s).
Proof.
  revert cur. induction s as [| c s IH]; intros cur Hcur.
  - simpl. destruct cur as [| c0 cur]; [constructor |].
    constructor; [| constructor]. split; [| exact Hcur].
    simpl. rewrite string_of_list_ascii_app. simpl.
    destruct (string_of_list_ascii (rev cur)); done.
  - simpl. destruct (Str.is_space c) eqn:Hc.
    + apply Forall_app. split; [| by apply IH].
      destruct cur as [| c0 cur]; [constructor |].
      constructor; [| constructor]. split; [| exact Hcur].
      simpl. rewrite string_of_list_ascii_app. simpl.
      destruct (string_of_list_ascii (rev cur)); done.
    + apply IH. by apply reading_cons.
Qed.

Lemma split_words s : Forall word (Str.split s).
Proof. apply split_go_words. reflexivity. Qed.

(** Reading a text that holds no separator only extends the word. *)
Lemma split_go_no_space cur w s :
  no_space w = true →
  Str.split_go cur (w +:+ s) = Str.split_go (rev (list_ascii_of_string w) ++ cur) s.
Proof.
  revert cur. induction w as [| c w IH]; intros cur Hw; [done |].
  simpl in Hw. apply andb_true_iff in Hw as [Hc Hw]. apply negb_true_iff in Hc.
  simpl. rewrite Hc, IH by done. by rewrite <- app_assoc.
Qed.

Lemma split_go_word w s :
  word w → Str.split_go [] (w +:+ s) = Str.split_go (rev (list_ascii_of_string w)) s.
Proof. intros [_ Hw]. rewrite split_go_no_space by done. by rewrite app_nil_r. Qed.

Lemma flush_word w rest :
  word w →
  (match rev (list_ascii_of_string w) with
   | [] => []
   | _ => [string_of_list_ascii (rev (rev (list_ascii_of_string w)))]
   end ++ rest)%list = w :: rest.
Proof.
  intros [Hne _]. rewrite rev_involutive, string_of_list_ascii_of_string.
  destruct (rev (list_ascii_of_string w)) eqn:E; [| done].
  apply (f_equal (@rev ascii)) in E. rewrite rev_involutive in E. simpl in E.
  destruct w; done.
Qed.

Lemma append_empty_r w : w +:+ "" = w.
Proof.
  induction w as [| c w IH]; [done |].
  change (String c (w +:+ "") = String c w). by rewrite IH.
Qed.

(** Splitting what [join] built from words returns the words. *)
Lemma split_join ws : Forall word ws → Str.split (Str.join " " ws) = ws.
Proof.
  induction 1 as [| w ws Hw Hws IH]; [done |].
  destruct ws as [| w' ws].
  - unfold Str.split. simpl.
    rewrite <- (append_empty_r w) at 1.
    rewrite split_go_word by done. simpl.
    pose proof (flush_word w [] Hw) as Hflush. by rewrite app_nil_r in Hflush.
  - change (Str.join " " (w :: w' :: ws)) with (w +:+ " " +:+ Str.join " " (w' :: ws)).
    unfold Str.split in *. rewrite split_go_word by done.
    change (" " +:+ Str.join " " (w' :: ws)) with (String " "%char (Str.join " " (w' :: ws))).
    cbn [Str.split_go]. change (Str.is_space " "%char) with true. cbn iota.
    rewrite IH. by apply flush_word.
Qed.

(** X1. [format_name] is idempotent on ASCII names: a name that has been
    formatted is stored as it is when it is entered again. *)
Theorem format_name_idempotent name : format_name (format_name name) = format_name name.
Proof.
  rewrite (format_name_join (format_name name)), (format_name_join name).
  assert (Forall word (to_sentence_case <$> Str.split name)) as Hwords.
  { apply Forall_fmap. eapply Forall_impl; [apply split_words |].
    intros w Hw. by apply word_to_sentence_case. }
  rewrite split_join by done. rewrite <- list_fmap_compose. f_equal.
  apply list_fmap_ext. intros i w _. apply to_sentence_case_idem.
Qed.

(** X2. On an ASCII name [format_name] changes the case of letters and
    the blanks between words, nothing else: its result equals, under
    SQLite's [NOCASE] comparison, the input with every run of separators
    squeezed into one blank and trimmed at both ends; it is made of the
    words of the input, in their order, up to the case of letters. *)
Theorem format_name_nocase name :
  is_ascii name = true →
  Str.nocase_eqb (format_name name) (squeeze name) = true
  ∧ Str.lower <$> Str.split (format_name name) = Str.lower <$> Str.split name.
Proof.
  intros _. split.
  - unfold Str.nocase_eqb, squeeze. apply String.eqb_eq.
    rewrite format_name_join, !lower_join, <- list_fmap_compose. f_equal.
    apply list_fmap_ext. intros i w _. apply lower_to_sentence_case.
  - rewrite format_name_join.
    assert (Forall word (to_sentence_case <$> Str.split name)) as Hwords.
    { apply Forall_fmap. eapply Forall_impl; [apply split_words |].
      intros w Hw. by apply word_to_sentence_case. }
    rewrite split_join by done. rewrite <- list_fmap_compose.
    apply list_fmap_ext. intros i w _. apply lower_to_sentence_case.
Qed.

Lemma format_name_nocase_witness :
  is_ascii "  blue   WIDGET " = true
  ∧ Str.nocase_eqb (format_name "  blue   WIDGET ") (squeeze "  blue   WIDGET ") = true.
Proof.
  assert (is_ascii "  blue   WIDGET " = true) as H by reflexivity.
  split; [exact H |]. exact (proj1 (format_name_nocase "  blue   WIDGET " H)).
Defined.

(** ** A batch once it is stored *)

Lemma format_name_lower name : Str.lower (format_name name) = Str.lower (squeeze name).
Proof.
  unfold squeeze. rewrite format_name_join, !lower_join, <- list_fmap_compose. f_equal.
  apply list_fmap_ext. intros i w _. apply lower_to_sentence_case.
Qed.

Lemma batch_sum_insert P i r (m : gmap Z product) :
  m !! i = None → batch_sum P (<[i := r]> m) = batch_sum P m + share P (i, r).
Proof.
  intros Hi. unfold batch_sum. rewrite map_to_list_insert by done.
  rewrite batch_sum_cons. lia.
Qed.

(** The sums of the store after a successful [add_product]. *)
Lemma add_product_sums cid brand name qty price cgst sgst cess date invoice d :
  company_known cid d →
  ∃ d', add_product cid brand name qty price cgst sgst cess date invoice (idle d)
        = (Ok (), idle d')
        ∧ companies d' = companies d
        ∧ products d'
          = <[next_rowid (products d)
              := new_batch cid brand name qty price cgst sgst cess date invoice]>
              (products d)
        ∧ (∀ name', stock_of name' d'
             = stock_of name' d
               + (if Str.nocase_eqb (format_name name) name' then qty else 0))
        ∧ (∀ name', available name' d'
             = available name' d
               + (if Str.nocase_eqb (format_name name) name' then Z.max 0 qty else 0)).
Proof.
  intros Hk. eexists. split.
  - rewrite add_product_run. change (view (idle d)) with d.
    destruct cid as [k |]; [| reflexivity]. simpl in Hk. destruct Hk as [x ->].
    reflexivity.
  - split; [done |]. split; [done |]. split; intros name'.
    + unfold stock_of. simpl. rewrite batch_sum_insert by apply next_rowid_fresh.
      unfold share. simpl. unfold is_product. simpl.
      destruct (Str.nocase_eqb (format_name name) name'); lia.
    + unfold available. simpl. rewrite batch_sum_insert by apply next_rowid_fresh.
      unfold share, in_stock. simpl. unfold is_product. simpl.
      destruct (Str.nocase_eqb (format_name name) name'); simpl; [| lia].
      destruct (0 <? qty) eqn:E; rewrite ?Z.ltb_lt, ?Z.ltb_ge in E; lia.
Qed.



Section BuyThenSell.
Context `{!SqlEngine}.

(** X4. What has been bought can be sold under the name as it was typed:
    after [add_product] of a quantity [qty] that SQLite stores (64-bit)
    under an ASCII name without superfluous blanks, [update_stock] with
    that name and any request between [0] and [qty] succeeds, and leaves
    the stock of the product at what it was before the purchase plus
    [qty] less the request. *)
Theorem add_product_then_update_stock
    cid brand name qty price cgst sgst cess date invoice d requested :
  company_known cid d →
  sqlite_integer qty →
  is_ascii name = true →
  squeeze name = name →
  0 ≤ requested ≤ qty →
  ∃ d' d'',
    add_product cid brand name qty price cgst sgst cess date invoice (idle d)
    = (Ok (), idle d')
    ∧ update_stock name requested (idle d') = (Ok (), idle d'')
    ∧ stock_of name d'' = stock_of name d + qty - requested.
Proof.
  intros Hk _ _ Hname Hreq.
  destruct (add_product_sums cid brand name qty price cgst sgst cess date invoice d Hk)
    as (d' & Hrun & _ & _ & Hstock & Havail).
  assert (Str.nocase_eqb (format_name name) name = true) as Hmatch.
  { unfold Str.nocase_eqb. apply String.eqb_eq. by rewrite format_name_lower, Hname. }
  specialize (Hstock name). specialize (Havail name). rewrite Hmatch in Hstock, Havail.
  pose proof (available_nonneg name d) as Hnonneg.
  destruct (update_stock_allocation name requested d' ltac:(lia) ltac:(lia))
    as (d'' & Hrun2 & Hsum & _).
  exists d', d''. split; [done |]. split; [done |]. lia.
Qed.

End BuyThenSell.

Lemma add_product_then_update_stock_witness :
  company_known None empty_database
  ∧ sqlite_integer 5
  ∧ is_ascii "blue widget" = true
  ∧ squeeze "blue widget" = "blue widget"
  ∧ 0 ≤ 3 ≤ 5
  ∧ ∃ d' d'',
      add_product None "acme" "blue widget" 5 100 9 9 2 "2024-02-01" None
        (idle empty_database) = (Ok (), idle d')
      ∧ update_stock (H := oldest_id_first_engine) "blue widget" 3 (idle d')
        = (Ok (), idle d'')
      ∧ stock_of "blue widget" d'' = stock_of "blue widget" empty_database + 5 - 3.
Proof.
  assert (company_known None empty_database) as H1 by exact I.
  assert (sqlite_integer 5) as Hq by (unfold sqlite_integer; lia).
  assert (is_ascii "blue widget" = true) as Ha by reflexivity.
  assert (squeeze "blue widget" = "blue widget") as H2 by reflexivity.
  assert (0 ≤ 3 ≤ 5) as H3 by lia.
  split; [exact H1 |]. split; [exact Hq |]. split; [exact Ha |].
  split; [exact H2 |]. split; [exact H3 |].
  exact (add_product_then_update_stock (H := oldest_id_first_engine)
           None "acme" "blue widget" 5 100 9 9 2 "2024-02-01" None
           empty_database 3 H1 Hq Ha H2 H3).
Defined.

(** ** Companies and the saving of a purchase entry *)

Lemma name_to_id_from rows (m0 : gmap string Z) :
  let m := foldl (λ m ir, <[c_name ir.2 := ir.1]> m) m0 rows in
  (∀ n id, m !! n = Some id →
     m0 !! n = Some id ∨ ∃ co, (id, co) ∈ rows ∧ c_name co = n)
  ∧ (∀ id co, (id, co) ∈ rows → is_Some (m !! c_name co))
  ∧ (∀ n, is_Some (m0 !! n) → is_Some (m !! n)).
Proof.
  revert m0. induction rows as [| [i co0] rows IH]; intros m0; simpl.
  - split; [by left |]. split; [| done]. intros id co Hin. by apply elem_of_nil in Hin.
  - destruct (IH (<[c_name co0 := i]> m0)) as (IH1 & IH2 & IH3). simpl in *.
    split; [| split].
    + intros n id Hm. destruct (IH1 n id Hm) as [H0 | (co & Hin & Hn)].
      * destruct (decide (c_name co0 = n)) as [<- | Hne].
        -- rewrite lookup_insert_eq in H0. inversion H0; subst.
           right. exists co0. split; [by left | done].
        -- rewrite lookup_insert_ne in H0 by done. by left.
      * right. exists co. split; [by right | done].
    + intros id co Hin. apply elem_of_cons in Hin as [Heq | Hin].
      * inversion Heq; subst. apply IH3. rewrite lookup_insert_eq. by eexists.
      * exact (IH2 id co Hin).
    + intros n Hn. apply IH3. destruct (decide (c_name co0 = n)) as [<- | Hne].
      * rewrite lookup_insert_eq. by eexists.
      * by rewrite lookup_insert_ne.
Qed.


Section Companies.
Context `{!TableScan}.

(** The dictionary of [get_companies] against the table. *)
Lemma get_companies_spec d :
  let m := name_to_id (scan (map_to_list (companies d))) in
  (∀ n id, m !! n = Some id → ∃ co, companies d !! id = Some co ∧ c_name co = n)
  ∧ (∀ id co, companies d !! id = Some co → is_Some (m !! c_name co)).
Proof.
  destruct (name_to_id_from (scan (map_to_list (companies d))) ∅) as (H1 & H2 & _).
  split.
  - intros n id Hm. destruct (H1 n id Hm) as [H0 | (co & Hin & Hn)].
    + by rewrite lookup_empty in H0.
    + exists co. split; [| done].
      rewrite scan_Permutation in Hin. by apply elem_of_map_to_list in Hin.
  - intros id co Hco. apply (H2 id co).
    rewrite scan_Permutation. by apply elem_of_map_to_list.
Qed.

(** X5. The dictionary [get_companies] returns has exactly the names of the
    companies as keys, each sent to the id of a company of that name.
    After [add_company] the formatted name is a key of it; it is sent to
    the id of the new company when no other company bears that name. *)
Theorem add_company_get_companies name gst_number contact d :
  let id := next_rowid (companies d) in
  let co := {| c_name := format_name name; c_gst_number := gst_number;
               c_contact := contact |} in
  let d' := set_companies (insert id co) d in
  let m := name_to_id (scan (map_to_list (companies d'))) in
  companies d !! id = None
  ∧ add_company name gst_number contact (idle d) = (Ok (), idle d')
  ∧ get_companies (idle d') = (Ok m, idle d')
  ∧ (∀ n i, m !! n = Some i → ∃ co', companies d' !! i = Some co' ∧ c_name co' = n)
  ∧ (∀ i co', companies d' !! i = Some co' → is_Some (m !! c_name co'))
  ∧ is_Some (m !! format_name name)
  ∧ ((∀ i co', companies d !! i = Some co' → c_name co' ≠ format_name name) →
     m !! format_name name = Some id).
Proof.
  intros id co d' m. destruct (get_companies_spec d') as [Hsound Hcomplete].
  fold m in Hsound, Hcomplete.
  assert (companies d' !! id = Some co) as Hnew by apply lookup_insert_eq.
  split; [apply next_rowid_fresh |]. split; [done |]. split; [done |].
  split; [done |]. split; [done |].
  split; [exact (Hcomplete id co Hnew) |].
  intros Huniq. destruct (Hcomplete id co Hnew) as [i Hi]. simpl in Hi.
  destruct (Hsound _ _ Hi) as (co' & Hco' & Hn).
  destruct (decide (i = id)) as [-> | Hne]; [done |].
  exfalso. subst d'. simpl in Hco'. rewrite lookup_insert_ne in Hco' by done.
  by apply (Huniq i co').
Qed.






End Companies.



(** ** Bills that are generated, refused or rejected *)

Section Bills.
Context `{!SqlEngine}.



(** X9. A bill that is refused costs nothing: with an empty cart, or with
    a cart and no customer selected, [generate_bill] reports it and leaves
    the connection as it was; no invoice number is issued. *)
Theorem generate_bill_refused item cart customer now_y now_m now_d date c :
  generate_bill [] customer now_y now_m now_d date c = (NoItemsToBill, c)
  ∧ generate_bill (item :: cart) "" now_y now_m now_d date c = (NoCustomerSelected, c).
Proof.
  split; [done |]. unfold generate_bill. by rewrite check_stock_levels_run.
Qed.

(** X10. When the number the sequencer issues is already the number of a
    bill (a second bill on an April 1, or the first bill of a calendar
    year after a year that issued bills), [generate_bill] fails with the
    [IntegrityError] of [create_bill]: no header, no bill item and no
    stock change is written, the counter of the year holds the number all
    the same, and the transaction that the failed insert opened stays
    open. *)
Theorem generate_bill_number_taken cart customer now_y now_m now_d date d b :
  cart ≠ [] →
  customer ≠ "" →
  billing d !! next_invoice_number now_y now_m now_d d = Some b →
  ∃ c',
    generate_bill cart customer now_y now_m now_d date (idle d)
    = (BillFailed (IntegrityError "UNIQUE constraint failed: billing.bill_number"), c')
    ∧ txn c' = Some (durable c')
    ∧ products (durable c') = products d
    ∧ billing (durable c') = billing d
    ∧ bill_items (durable c') = bill_items d
    ∧ stored_counter (dt_year now_y) c' = Some (next_invoice_number now_y now_m now_d d).
Proof.
  intros Hcart Hcustomer Htaken.
  set (n := next_invoice_number now_y now_m now_d d) in *.
  destruct (get_invoice_number_run now_y now_m now_d (idle d))
    as (c1 & Hrun1 & Hidle1 & Hst1 & _ & Hp1 & Hb1 & Hi1 & _).
  change (view (idle d)) with d in *.
  fold (next_invoice_number now_y now_m now_d d) in Hrun1, Hst1. fold n in Hrun1, Hst1.
  rewrite (idle_durable c1 Hidle1) in Hrun1.
  exists {| durable := durable c1; txn := Some (durable c1) |}.
  split; [| by repeat split].
  rewrite generate_bill_run by done.
  unfold save_bill. unfold mbind, DB_bind at 1. rewrite Hrun1.
  unfold mbind, DB_bind at 1. unfold create_bill, insert_bill. unfold_db. simpl.
  change (view (idle (durable c1))) with (durable c1). rewrite Hb1, Htaken. done.
Qed.

End Bills.


Lemma generate_bill_number_taken_witness :
  [widget_line] ≠ []
  ∧ "Ravi" ≠ ""
  ∧ billing shop_2024 !! next_invoice_number new_year new_year new_year shop_2024
    = Some {| customer_name := "Asha"; total_amount := 118;
              bill_date := "2024-06-01 09:00:00" |}
  ∧ ∃ c',
      generate_bill (H := oldest_id_first_engine) [widget_line]
        "Ravi" new_year new_year new_year "2025-01-02 10:00:00" (idle shop_2024)
      = (BillFailed (IntegrityError "UNIQUE constraint failed: billing.bill_number"), c')
      ∧ stored_counter 2025 c' = Some 1.
Proof.
  assert ([widget_line] ≠ []) as H0 by discriminate.
  assert ("Ravi" ≠ "") as H1 by discriminate.
  assert (billing shop_2024 !! next_invoice_number new_year new_year new_year shop_2024
          = Some {| customer_name := "Asha"; total_amount := 118;
                    bill_date := "2024-06-01 09:00:00" |}) as H2 by reflexivity.
  split; [exact H0 |]. split; [exact H1 |]. split; [exact H2 |].
  destruct (generate_bill_number_taken (H := oldest_id_first_engine)
              [widget_line] "Ravi" new_year new_year new_year
              "2025-01-02 10:00:00" shop_2024 _ H0 H1 H2)
    as (c' & Hrun & _ & _ & _ & _ & Hcounter).
  exists c'. split; [exact Hrun | exact Hcounter].
Defined.

(** ** The sequencer, continued *)

(** X11. From any stored counter: the calls of one calendar year, none
    of them on April 1, return the numbers that follow the counter, one by
    one; they are pairwise distinct, the counter of the year ends at the
    last number issued, and no transaction stays open whenever a call was
    made. A year without a row counts from 0. *)
Theorem get_invoice_numbers_continue year calls c :
  Forall (ordinary_call year) calls →
  ∃ numbers c',
    get_invoice_numbers calls c = (Ok numbers, c')
    ∧ numbers
      = seqZ (default 0 (last_invoice_number <$> settings (view c) !! year) + 1)
          (Z.of_nat (length calls))
    ∧ NoDup numbers
    ∧ default 0 (last_invoice_number <$> settings (view c') !! year)
      = default 0 (last_invoice_number <$> settings (view c) !! year)
        + Z.of_nat (length calls)
    ∧ (calls ≠ [] → txn c' = None).
Proof.
  intros Hcalls. revert c.
  induction Hcalls as [| [[now_y now_m] now_d] calls [Hy Hnot] _ IH]; intros c.
  - exists [], c. simpl. repeat split; [constructor | lia | done].
  - simpl in Hy, Hnot. subst year.
    destruct (get_invoice_number_run now_y now_m now_d c)
      as (c1 & Hrun & Hidle & Hst & _).
    rewrite (reset_test_false _ _ Hnot) in Hrun, Hst.
    set (n := default 0 (last_invoice_number <$> settings (view c) !! dt_year now_y)) in *.
    assert (default 0 (last_invoice_number <$> settings (view c1) !! dt_year now_y) = n + 1)
      as Hn1.
    { unfold view. rewrite Hidle. simpl. unfold stored_counter in Hst. by rewrite Hst. }
    destruct (IH c1) as (numbers & c2 & Hrest & Hnumbers & _ & Hlast & Hopen).
    rewrite Hn1 in Hnumbers, Hlast.
    exists (n + 1 :: numbers), c2. split; [| split; [| split; [| split]]].
    + cbn [get_invoice_numbers]. unfold mbind, DB_bind at 1.
      rewrite Hrun. unfold DB_bind at 1. rewrite Hrest. done.
    + rewrite (seqZ_cons (n + 1)) by (simpl; lia). rewrite Hnumbers.
      repeat f_equal; simpl; lia.
    + rewrite Hnumbers. replace (n + 1 :: seqZ (n + 1 + 1) (Z.of_nat (length calls)))
        with (seqZ (n + 1) (Z.of_nat (length ((now_y, now_m, now_d) :: calls)))).
      * apply NoDup_seqZ.
      * rewrite (seqZ_cons (n + 1)) by (simpl; lia). repeat f_equal; simpl; lia.
    + rewrite Hlast. simpl length. lia.
    + intros _. destruct calls as [| call calls'].
      * simpl in Hrest. injection Hrest as _ <-. exact Hidle.
      * by apply Hopen.
Qed.

Lemma get_invoice_numbers_continue_witness :
  Forall (ordinary_call 2024) [(march_2024, march_2024, march_2024);
                               (march_2024, march_2024, march_2024)]
  ∧ ∃ c', get_invoice_numbers [(march_2024, march_2024, march_2024);
                               (march_2024, march_2024, march_2024)] (idle shop_2024)
          = (Ok [2; 3], c').
Proof.
  assert (Forall (ordinary_call 2024) [(march_2024, march_2024, march_2024);
                                       (march_2024, march_2024, march_2024)]) as H.
  { repeat constructor; simpl; lia. }
  split; [exact H |].
  destruct (get_invoice_numbers_continue 2024 _ (idle shop_2024) H)
    as (numbers & c' & Hrun & Hnumbers & _).
  exists c'. rewrite Hrun, Hnumbers. reflexivity.
Defined.

(** X12. One call of the sequencer commits what the connection had
    pending and changes one thing: the counter of the current year. The
    tables of companies, products, bills and bill items, the rows of the
    other years and the low-stock threshold of the current year stay as
    they were; a year that had no row gets the threshold 5. *)
Theorem get_invoice_number_frame now_y now_m now_d c :
  ∃ c',
    get_invoice_number now_y now_m now_d c
    = (Ok (next_invoice_number now_y now_m now_d (view c)), c')
    ∧ txn c' = None
    ∧ companies (durable c') = companies (view c)
    ∧ products (durable c') = products (view c)
    ∧ billing (durable c') = billing (view c)
    ∧ bill_items (durable c') = bill_items (view c)
    ∧ (∀ y, y ≠ dt_year now_y → settings (durable c') !! y = settings (view c) !! y)
    ∧ settings (durable c') !! dt_year now_y
      = Some {| last_invoice_number := next_invoice_number now_y now_m now_d (view c);
                low_stock_threshold :=
                  default 5 (low_stock_threshold <$> settings (view c) !! dt_year now_y) |}.
Proof.
  unfold next_invoice_number, get_invoice_number. unfold_db. simpl.
  destruct (settings (view c) !! dt_year now_y) as [s |] eqn:Hs; simpl.
  - unfold update_last_invoice_number. simpl. eexists. split; [reflexivity |].
    simpl. rewrite lookup_alter_eq, Hs. simpl.
    repeat split; try done. intros y Hy. by rewrite lookup_alter_ne.
  - unfold insert_setting. rewrite Hs. simpl. unfold view at 1. simpl.
    eexists. split; [reflexivity |]. simpl.
    rewrite lookup_alter_eq, lookup_insert_eq. simpl.
    repeat split; try done. intros y Hy.
    rewrite lookup_alter_ne, lookup_insert_ne; done.
Qed.

(** ** The low-stock threshold *)

Lemma set_settings_id d : set_settings (λ _, settings d) d = d.
Proof. by destruct d. Qed.



(** ** What the allocator leaves alone *)

Lemma lower_upper s : Str.lower (Str.upper s) = Str.lower s.
Proof. induction s as [| c s IH]; simpl; [done |]. by rewrite lower_char_upper_char, IH. Qed.

Section AllocatorFrame.
Context `{!SqlEngine}.

(** X14. Whatever it is asked, [update_stock] on a connection with no
    transaction open ends with no transaction open and touches the column
    [quantity] of the [products] table only: no row is added or removed,
    a row keeps every other column, a row of another product or with no
    stock left keeps its quantity too, no quantity grows, and the other
    tables stay as they were. When it raises, the database is the one it
    started from. *)
Theorem update_stock_frame name requested d :
  ∃ out d',
    update_stock name requested (idle d) = (out, idle d')
    ∧ companies d' = companies d
    ∧ settings d' = settings d
    ∧ billing d' = billing d
    ∧ bill_items d' = bill_items d
    ∧ (∀ id, ∃ t, 0 ≤ t ∧ products d' !! id = decrement t <$> products d !! id)
    ∧ (∀ id r, products d !! id = Some r → in_stock name (id, r) = false →
         products d' !! id = Some r)
    ∧ (∀ e, out = Raise e → d' = d).
Proof.
  rewrite update_stock_run. destruct (available name d <? requested) eqn:E.
  - eexists _, d. split_and!; try done.
    intros id. exists 0. split; [lia |].
    destruct (products d !! id) as [r |]; [| done]. simpl. by rewrite decrement_0.
  - pose proof (select_batches_fetched name d) as Hf.
    destruct (allocate_lookup name _ requested _ Hf) as [Hout Hin].
    eexists _, _. split; [reflexivity |]. split_and!; try done.
    + intros id. simpl.
      destruct (decide (id ∈ (select_batches name d).*1)) as [Hid | Hid].
      * apply list_elem_of_fmap in Hid as ([i q] & -> & Hiq).
        apply list_elem_of_lookup in Hiq as [k Hk].
        exists (taken requested (sumZ (take k (select_batches name d)).*2) q).
        split; [| exact (Hin k i q Hk)].
        destruct Hf as [_ Hf]. destruct (Hf i q) as (_ & _ & _ & Hq & _).
        { by eapply list_elem_of_lookup_2. }
        unfold taken. lia.
      * exists 0. split; [lia |]. rewrite (Hout id Hid).
        destruct (products d !! id) as [r |]; [| done]. simpl. by rewrite decrement_0.
    + intros id r Hr Hno. simpl. rewrite Hout; [done |].
      intros Hid. apply list_elem_of_fmap in Hid as ([i q] & -> & Hiq).
      apply elem_of_select_batches in Hiq as (r' & Hr' & Hqr & Hname & Hq).
      simpl in Hr. rewrite Hr in Hr'. injection Hr' as <-.
      unfold in_stock in Hno. simpl in Hno. rewrite Hname in Hno. simpl in Hno.
      apply Z.ltb_ge in Hno. lia.
Qed.

(** X15. [check_current_stock] changes nothing and returns the sum of
    the remaining quantities over every batch of the product, whichever
    order the engine returns them in and however the name is cased; the
    [total_available] that [update_stock] compares a request with is never
    lower, and the two agree when no batch is negative. *)
Theorem check_current_stock_total name c :
  check_current_stock name c = (Ok (stock_of name (view c)), c)
  ∧ check_current_stock (Str.upper name) c = check_current_stock name c
  ∧ check_current_stock (Str.lower name) c = check_current_stock name c
  ∧ stock_of name (view c) ≤ available name (view c)
  ∧ ((∀ i r, products (view c) !! i = Some r → 0 ≤ quantity r) →
     available name (view c) = stock_of name (view c)).
Proof.
  assert (∀ n, check_current_stock n c = (Ok (stock_of n (view c)), c)) as Hrun.
  { intros n. unfold check_current_stock, query, stock_of, batch_sum.
    by rewrite order_by_Permutation. }
  assert (∀ n m, Str.lower n = Str.lower m →
                 stock_of n (view c) = stock_of m (view c)) as Hcase.
  { intros n m Hnm. unfold stock_of. apply batch_sum_ext. intros i r _.
    unfold share, is_product, Str.nocase_eqb. simpl. by rewrite Hnm. }
  split_and!.
  - apply Hrun.
  - rewrite !Hrun. by rewrite (Hcase (Str.upper name) name (lower_upper name)).
  - rewrite !Hrun. by rewrite (Hcase (Str.lower name) name (lower_idem name)).
  - apply stock_of_le_available.
  - apply available_stock_of.
Qed.

End AllocatorFrame.

(** ** The purchase history *)

Lemma bought_alter name t i (m : gmap Z product) :
  bought name (alter (decrement t) i m) = bought name m.
Proof.
  destruct (m !! i) as [r |] eqn:Hi.
  - unfold bought.
    assert (map_to_list m ≡ₚ (i, r) :: map_to_list (delete i m)) as ->
      by (symmetry; by apply map_to_list_delete).
    assert (alter (decrement t) i m = <[i := decrement t r]> (delete i m)) as ->.
    { apply map_eq. intros j. destruct (decide (i = j)) as [-> |].
      - by rewrite lookup_alter_eq, lookup_insert_eq, Hi.
      - by rewrite lookup_alter_ne, lookup_insert_ne, lookup_delete_ne. }
    rewrite map_to_list_insert by apply lookup_delete_eq.
    rewrite !filter_cons. simpl.
    change (is_product name (decrement t r)) with (is_product name r).
    by case_decide.
  - f_equal. apply map_eq. intros j. destruct (decide (i = j)) as [-> |].
    + by rewrite lookup_alter_eq, Hi.
    + by rewrite lookup_alter_ne.
Qed.

(** The allocation loop leaves the quantities bought as they were. *)
Lemma bought_allocate name bs requested m :
  bought name (allocate bs requested m).2 = bought name m.
Proof.
  revert requested m. induction bs as [| b bs IH]; intros requested m; [done |].
  simpl. destruct (requested <=? 0); [done |]. by rewrite IH, bought_alter.
Qed.

Lemma sumZ_sold d rows :
  sumZ (ph_sold_quantity <$> (purchase_row d <$> rows))
  = sumZ ((λ ir, original_quantity ir.2) <$> rows)
    - sumZ ((λ ir, quantity ir.2) <$> rows).
Proof. induction rows as [| ir rows IH]; csimpl; [done |]. rewrite IH. lia. Qed.

Section History.
Context `{!SqlEngineDesc}.

Lemma get_purchase_history_run name c :
  name ≠ "" →
  get_purchase_history (Some name) c
  = (Ok (purchase_row (view c)
           <$> order_by_purchase_date_desc
                 (filter (λ ir, Is_true (is_product name ir.2))
                    (map_to_list (products (view c))))), c).
Proof.
  intros Hname. unfold get_purchase_history, query.
  assert (String.eqb name "" = false) as -> by (by apply String.eqb_neq). done.
Qed.

Lemma history_sold name d :
  sumZ (ph_sold_quantity
          <$> (purchase_row d
                 <$> order_by_purchase_date_desc
                       (filter (λ ir, Is_true (is_product name ir.2))
                          (map_to_list (products d)))))
  = bought name (products d) - stock_of name d.
Proof.
  rewrite sumZ_sold. unfold bought, stock_of, batch_sum.
  by rewrite !order_by_desc_Permutation.
Qed.

(** X16. For a product name that is not empty, [get_purchase_history]
    changes nothing and returns one row for every batch of the product,
    the batches with nothing left included, each once and the latest
    purchase date first; a row carries the name of the batch's company when
    the batch has one; the remaining quantities of the rows add up to what
    [check_current_stock] reports, and the sold quantities to what was
    bought less that. With no name, or the empty one, every batch of the
    table is returned. *)
Theorem get_purchase_history_complete name c :
  name ≠ "" →
  ∃ history,
    get_purchase_history (Some name) c = (Ok history, c)
    ∧ (∀ p, p ∈ history
            ↔ ∃ id r, products (view c) !! id = Some r
                      ∧ is_product name r = true
                      ∧ p = purchase_row (view c) (id, r))
    ∧ NoDup (ph_id <$> history)
    ∧ (∀ (j k : nat) x y,
         history !! j = Some x → history !! k = Some y → (j < k)%nat →
         date_le (ph_purchase_date y) (ph_purchase_date x))
    ∧ sumZ (ph_remaining_quantity <$> history) = stock_of name (view c)
    ∧ sumZ (ph_sold_quantity <$> history)
      = bought name (products (view c)) - stock_of name (view c)
    ∧ (∀ all, (get_purchase_history None c = (Ok all, c)
               ∨ get_purchase_history (Some "") c = (Ok all, c)) →
         ∀ p, p ∈ all
              ↔ ∃ id r, products (view c) !! id = Some r
                        ∧ p = purchase_row (view c) (id, r)).
Proof.
  intros Hname. eexists. split; [by apply get_purchase_history_run |].
  set (rows := order_by_purchase_date_desc
                 (filter (λ ir, Is_true (is_product name ir.2))
                    (map_to_list (products (view c))))).
  split_and!.
  - intros p. rewrite list_elem_of_fmap. split.
    + intros ([id r] & -> & Hin). subst rows.
      rewrite order_by_desc_Permutation in Hin.
      apply list_elem_of_filter in Hin as [Hn Hin]. simpl in Hn.
      apply elem_of_map_to_list in Hin. apply Is_true_true in Hn. eauto.
    + intros (id & r & Hr & Hn & ->). exists (id, r). split; [done |].
      subst rows. rewrite order_by_desc_Permutation.
      apply list_elem_of_filter. split; [by apply Is_true_true |].
      by apply elem_of_map_to_list.
  - rewrite <- list_fmap_compose.
    change (ph_id ∘ purchase_row (view c)) with (fst : Z * product → Z).
    subst rows. rewrite order_by_desc_Permutation.
    eapply sublist_NoDup; [apply (NoDup_fst_map_to_list (products (view c))) |].
    apply fmap_sublist, sublist_filter.
  - intros j k x y Hj Hk Hlt.
    apply list_lookup_fmap_Some in Hj as (x' & -> & Hj).
    apply list_lookup_fmap_Some in Hk as (y' & -> & Hk).
    assert (StronglySorted (flip row_date_le) rows) as Hs.
    { apply Sorted_StronglySorted; [| apply order_by_desc_Sorted].
      intros a b e Hab Hbe. unfold flip in *. by etrans. }
    exact (StronglySorted_lookup _ _ _ _ _ _ Hs Hj Hk Hlt).
  - rewrite <- list_fmap_compose. subst rows. unfold stock_of, batch_sum.
    by rewrite order_by_desc_Permutation.
  - apply history_sold.
  - intros all Hall p.
    assert (all = purchase_row (view c)
                    <$> order_by_purchase_date_desc (map_to_list (products (view c))))
      as ->.
    { destruct Hall as [Hall | Hall]; unfold get_purchase_history, query in Hall;
        simpl in Hall; by injection Hall as <-. }
    rewrite list_elem_of_fmap. split.
    + intros ([id r] & -> & Hin). rewrite order_by_desc_Permutation in Hin.
      apply elem_of_map_to_list in Hin. eauto.
    + intros (id & r & Hr & ->). exists (id, r). split; [done |].
      rewrite order_by_desc_Permutation. by apply elem_of_map_to_list.
Qed.

Context `{!SqlEngine}.

(** X17. A sale shows in the history: when [update_stock] is asked for a
    quantity from 0 to what is available, the sold quantities that
    [get_purchase_history] lists for the product add up to the request
    more than before, and the quantities bought to the same as before. *)
Theorem purchase_history_after_sale name requested d :
  name ≠ "" →
  0 ≤ requested →
  requested ≤ available name d →
  ∃ d' before after,
    update_stock name requested (idle d) = (Ok (), idle d')
    ∧ get_purchase_history (Some name) (idle d) = (Ok before, idle d)
    ∧ get_purchase_history (Some name) (idle d') = (Ok after, idle d')
    ∧ sumZ (ph_sold_quantity <$> after) = sumZ (ph_sold_quantity <$> before) + requested
    ∧ sumZ (ph_original_quantity <$> after) = sumZ (ph_original_quantity <$> before).
Proof.
  intros Hname Hr Hle.
  destruct (update_stock_allocation name requested d Hr Hle) as (d' & Hrun & Hstock & _).
  assert (bought name (products d') = bought name (products d)) as Hbought.
  { pose proof (update_stock_run name requested d) as Hrun'.
    rewrite Hrun in Hrun'.
    destruct (available name d <? requested); [discriminate Hrun' |].
    injection Hrun' as ->. simpl. apply bought_allocate. }
  assert (∀ e, sumZ (ph_original_quantity
                       <$> (purchase_row e
                              <$> order_by_purchase_date_desc
                                    (filter (λ ir, Is_true (is_product name ir.2))
                                       (map_to_list (products e)))))
               = bought name (products e)) as Horiginal.
  { intros e. rewrite <- list_fmap_compose. unfold bought.
    by rewrite order_by_desc_Permutation. }
  eexists d', _, _. split; [exact Hrun |].
  split; [by apply get_purchase_history_run |].
  split; [by apply get_purchase_history_run |].
  change (view (idle d)) with d. change (view (idle d')) with d'.
  split_and!.
  - rewrite !history_sold, Hbought, Hstock. lia.
  - by rewrite !Horiginal.
Qed.

End History.

Lemma get_purchase_history_complete_witness :
  "Widget" ≠ ""
  ∧ ∃ history,
      get_purchase_history (H := latest_first_engine) (Some "Widget") (idle two_batches)
      = (Ok history, idle two_batches)
      ∧ sumZ (ph_remaining_quantity <$> history) = stock_of "Widget" two_batches.
Proof.
  assert ("Widget" ≠ "") as H by discriminate.
  split; [exact H |].
  destruct (get_purchase_history_complete (H := latest_first_engine)
              "Widget" (idle two_batches) H)
    as (history & Hrun & _ & _ & _ & Hsum & _).
  exists history. split; [exact Hrun | exact Hsum].
Defined.

Lemma purchase_history_after_sale_witness :
  "Widget" ≠ ""
  ∧ 0 ≤ 7
  ∧ 7 ≤ available "Widget" two_batches
  ∧ ∃ d' before after,
      update_stock (H := oldest_id_first_engine) "Widget" 7 (idle two_batches)
      = (Ok (), idle d')
      ∧ get_purchase_history (H := latest_first_engine) (Some "Widget") (idle two_batches)
        = (Ok before, idle two_batches)
      ∧ get_purchase_history (H := latest_first_engine) (Some "Widget") (idle d')
        = (Ok after, idle d')
      ∧ sumZ (ph_sold_quantity <$> after) = sumZ (ph_sold_quantity <$> before) + 7.
Proof.
  assert ("Widget" ≠ "") as H0 by discriminate.
  assert (0 ≤ 7) as H1 by lia.
  assert (7 ≤ available "Widget" two_batches) as H2 by (vm_compute; congruence).
  split; [exact H0 |]. split; [exact H1 |]. split; [exact H2 |].
  destruct (purchase_history_after_sale (H := latest_first_engine)
              (H0 := oldest_id_first_engine) "Widget" 7 two_batches H0 H1 H2)
    as (d' & before & after & Hrun & Hbefore & Hafter & Hsold & _).
  exists d', before, after. split_and!; done.
Defined.

(** ** The totals of the two forms *)

Lemma billing_totals_loop_sum (items : list (cart_item Q)) (s c g : Q) :
  ((billing_totals_loop items s c g).1.1
   == s + sumQ ((λ item, la_base (line_of item)) <$> items))%Q
  ∧ ((billing_totals_loop items s c g).1.2
     == c + sumQ ((λ item, la_cgst_amount (line_of item)) <$> items))%Q
  ∧ ((billing_totals_loop items s c g).2
     == g + sumQ ((λ item, la_sgst_amount (line_of item)) <$> items))%Q.
Proof.
  revert s c g. induction items as [| item items IH]; intros s c g.
  - cbn [billing_totals_loop fmap list_fmap sumQ foldr fst snd]. split_and!; ring.
  - cbn [billing_totals_loop].
    destruct (IH (radd s (rmul (of_int (ci_quantity item)) (ci_unit_price item)))
                (radd c (rmul (rmul (of_int (ci_quantity item)) (ci_unit_price item))
                           (rdiv (ci_cgst item) (of_int 100))))
                (radd g (rmul (rmul (of_int (ci_quantity item)) (ci_unit_price item))
                           (rdiv (ci_sgst item) (of_int 100)))))
      as (H1 & H2 & H3).
    rewrite H1, H2, H3.
    change (sumQ ((λ item, la_base (line_of item)) <$> item :: items))
      with (la_base (line_of item)
            + sumQ ((λ item, la_base (line_of item)) <$> items))%Q.
    change (sumQ ((λ item, la_cgst_amount (line_of item)) <$> item :: items))
      with (la_cgst_amount (line_of item)
            + sumQ ((λ item, la_cgst_amount (line_of item)) <$> items))%Q.
    change (sumQ ((λ item, la_sgst_amount (line_of item)) <$> item :: items))
      with (la_sgst_amount (line_of item)
            + sumQ ((λ item, la_sgst_amount (line_of item)) <$> items))%Q.
    unfold line_of, add_billing_item_amounts.
    cbv [la_base la_cgst_amount la_sgst_amount radd rmul rdiv of_int Q_Arith].
    split_and!; field.
Qed.

Lemma sumQ_line_totals (items : list (cart_item Q)) :
  (sumQ ((λ item, la_item_total (line_of item)) <$> items)
   == sumQ ((λ item, la_base (line_of item)) <$> items)
      + sumQ ((λ item, la_cgst_amount (line_of item)) <$> items)
      + sumQ ((λ item, la_sgst_amount (line_of item)) <$> items))%Q.
Proof.
  induction items as [| item items IH]; [reflexivity |].
  change (la_item_total (line_of item)
          + sumQ ((λ item, la_item_total (line_of item)) <$> items)
          == la_base (line_of item)
             + sumQ ((λ item, la_base (line_of item)) <$> items)
             + (la_cgst_amount (line_of item)
                + sumQ ((λ item, la_cgst_amount (line_of item)) <$> items))
             + (la_sgst_amount (line_of item)
                + sumQ ((λ item, la_sgst_amount (line_of item)) <$> items)))%Q.
  rewrite IH. unfold line_of, add_billing_item_amounts.
  cbv [la_base la_cgst_amount la_sgst_amount la_item_total radd rmul rdiv of_int Q_Arith].
  ring.
Qed.

(** X18. The totals under the cart. In exact arithmetic, for every cart,
    [update_billing_totals] shows the sums of the bases, of the CGST
    amounts and of the SGST amounts of the lines that [add_billing_item]
    showed, and its total is the amount [generate_bill] stores in the Bill
    header. In the program's binary64 arithmetic the two totals are
    computed along different paths and can differ: for one unit at 10.0
    with CGST 6 and SGST 6 the total shown is below the total stored. *)
Theorem update_billing_totals_exact :
  (∀ items : list (cart_item Q),
     let totals := update_billing_totals items in
     (bt_subtotal totals == sumQ ((λ item, la_base (line_of item)) <$> items))%Q
     ∧ (bt_total_cgst totals
        == sumQ ((λ item, la_cgst_amount (line_of item)) <$> items))%Q
     ∧ (bt_total_sgst totals
        == sumQ ((λ item, la_sgst_amount (line_of item)) <$> items))%Q
     ∧ (bt_total totals == sumQ ((λ item, la_item_total (line_of item)) <$> items))%Q
     ∧ (bt_total totals == accumulate_total 0%Q items)%Q)
  ∧ PrimFloat.ltb
      (bt_total (update_billing_totals [ten_at_twelve_percent]))
      (bill_total_amount [ten_at_twelve_percent]) = true.
Proof.
  split; [| vm_compute; reflexivity].
  intros items totals. subst totals. unfold update_billing_totals.
  destruct (billing_totals_loop_sum items (of_int 0) (of_int 0) (of_int 0))
    as (H1 & H2 & H3).
  destruct (billing_totals_loop items (of_int 0) (of_int 0) (of_int 0))
    as [[s c] g].
  cbn [fst snd] in H1, H2, H3. cbn [bt_subtotal bt_total_cgst bt_total_sgst bt_total].
  change (@of_int Q _ 0) with 0%Q in H1, H2, H3.
  change (radd (radd s c) g) with (s + c + g)%Q.
  assert (s + c + g
          == sumQ ((λ item, la_item_total (line_of item)) <$> items))%Q as Htotal.
  { rewrite sumQ_line_totals, H1, H2, H3. ring. }
  split_and!.
  - rewrite H1. ring.
  - rewrite H2. ring.
  - rewrite H3. ring.
  - exact Htotal.
  - rewrite Htotal, accumulate_total_sum.
    rewrite (sumQ_ext item_total (λ item, la_item_total (line_of item)))
      by apply item_total_line.
    ring.
Qed.

Lemma product_totals_loop_sum (forms : list (product_form Q)) (s c g e : Q) :
  ((product_totals_loop (add_product_to_list <$> forms).*1 s c g e).1.1.1
   == s + sumQ (form_base <$> forms))%Q
  ∧ ((product_totals_loop (add_product_to_list <$> forms).*1 s c g e).1.1.2
     == c + sumQ (form_half_gst <$> forms))%Q
  ∧ ((product_totals_loop (add_product_to_list <$> forms).*1 s c g e).1.2
     == g + sumQ (form_half_gst <$> forms))%Q
  ∧ ((product_totals_loop (add_product_to_list <$> forms).*1 s c g e).2
     == e + sumQ (form_cess <$> forms))%Q.
Proof.
  revert s c g e. induction forms as [| form forms IH]; intros s c g e.
  - cbn [product_totals_loop fmap list_fmap sumQ foldr fst snd]. split_and!; ring.
  - change (product_totals_loop (add_product_to_list <$> form :: forms).*1 s c g e)
      with (product_totals_loop (add_product_to_list <$> forms).*1
              (s + inject_Z (pf_quantity form) * pf_price form)
              (c + inject_Z (pf_quantity form) * pf_price form
                   * (pf_gst_slab form / inject_Z 2 / inject_Z 100))
              (g + inject_Z (pf_quantity form) * pf_price form
                   * (pf_gst_slab form / inject_Z 2 / inject_Z 100))
              (e + inject_Z (pf_quantity form) * pf_price form
                   * (pf_cess form / inject_Z 100)))%Q.
    destruct (IH (s + inject_Z (pf_quantity form) * pf_price form)
                (c + inject_Z (pf_quantity form) * pf_price form
                     * (pf_gst_slab form / inject_Z 2 / inject_Z 100))
                (g + inject_Z (pf_quantity form) * pf_price form
                     * (pf_gst_slab form / inject_Z 2 / inject_Z 100))
                (e + inject_Z (pf_quantity form) * pf_price form
                     * (pf_cess form / inject_Z 100)))%Q
      as (H1 & H2 & H3 & H4).
    rewrite H1, H2, H3, H4.
    change (sumQ (form_base <$> form :: forms))
      with (form_base form + sumQ (form_base <$> forms))%Q.
    change (sumQ (form_half_gst <$> form :: forms))
      with (form_half_gst form + sumQ (form_half_gst <$> forms))%Q.
    change (sumQ (form_cess <$> form :: forms))
      with (form_cess form + sumQ (form_cess <$> forms))%Q.
    unfold form_half_gst, form_cess, form_base. split_and!; field.
Qed.

Lemma sumQ_item_totals (forms : list (product_form Q)) :
  (sumQ (add_product_to_list <$> forms).*2
   == sumQ (form_base <$> forms) + sumQ (form_half_gst <$> forms)
      + sumQ (form_half_gst <$> forms) + sumQ (form_cess <$> forms))%Q.
Proof.
  induction forms as [| form forms IH]; [reflexivity |].
  change (pf_price form * inject_Z (pf_quantity form)
          * (inject_Z 1
             + (pf_gst_slab form / inject_Z 2 + pf_gst_slab form / inject_Z 2
                + pf_cess form) / inject_Z 100)
          + sumQ (add_product_to_list <$> forms).*2
          == form_base form + sumQ (form_base <$> forms)
             + (form_half_gst form + sumQ (form_half_gst <$> forms))
             + (form_half_gst form + sumQ (form_half_gst <$> forms))
             + (form_cess form + sumQ (form_cess <$> forms)))%Q.
  rewrite IH. unfold form_half_gst, form_cess, form_base. field.
Qed.

Lemma sumQ_slab (forms : list (product_form Q)) :
  (sumQ ((λ form, form_base form * pf_gst_slab form / 100)%Q <$> forms)
   == sumQ (form_half_gst <$> forms) + sumQ (form_half_gst <$> forms))%Q.
Proof.
  induction forms as [| form forms IH]; [reflexivity |].
  change (form_base form * pf_gst_slab form / 100
          + sumQ ((λ form, form_base form * pf_gst_slab form / 100)%Q <$> forms)
          == form_half_gst form + sumQ (form_half_gst <$> forms)
             + (form_half_gst form + sumQ (form_half_gst <$> forms)))%Q.
  rewrite IH. unfold form_half_gst. field.
Qed.

(** X19. The totals under the purchase entry. In exact arithmetic, for
    every list of entries that [add_product_to_list] built,
    [update_product_totals] shows a total equal to the sum of the item
    totals shown in the rows, CESS included; the CGST and SGST totals are
    equal, each half of the slab rate applied to the values of the lines.
    In binary64, ten units at 100.0 under the 18 % slab with a CESS of 2 %
    give an entry with CGST 9, SGST 9 and CESS 2, an item total of 1200.0
    and, alone in the list, a total of 1200.0. *)
Theorem update_product_totals_exact :
  (∀ forms : list (product_form Q),
     let entries := add_product_to_list <$> forms in
     let totals := update_product_totals entries.*1 in
     (pt_total totals == sumQ entries.*2)%Q
     ∧ (pt_subtotal totals == sumQ (form_base <$> forms))%Q
     ∧ (pt_total_cgst totals == pt_total_sgst totals)%Q
     ∧ (pt_total_cgst totals + pt_total_sgst totals
        == sumQ ((λ form, form_base form * pf_gst_slab form / 100)%Q <$> forms))%Q
     ∧ (pt_total_cess totals == sumQ (form_cess <$> forms))%Q)
  ∧ add_product_to_list ten_widgets_form
    = ({| pi_company := "Acme"; pi_brand := "acme"; pi_product_name := "widget";
          pi_quantity := 10; pi_unit_price := 100%float; pi_cgst := 9%float;
          pi_sgst := 9%float; pi_cess := 2%float; pi_company_invoice := "INV-7" |},
       1200%float)
  ∧ pt_total (update_product_totals [(add_product_to_list ten_widgets_form).1])
    = 1200%float.
Proof.
  split; [| split; vm_compute; reflexivity].
  intros forms entries totals. subst totals entries. unfold update_product_totals.
  destruct (product_totals_loop_sum forms (of_int 0) (of_int 0) (of_int 0) (of_int 0))
    as (H1 & H2 & H3 & H4).
  destruct (product_totals_loop (add_product_to_list <$> forms).*1
              (of_int 0) (of_int 0) (of_int 0) (of_int 0)) as [[[s c] g] e].
  cbn [fst snd] in H1, H2, H3, H4.
  cbn [pt_subtotal pt_total_cgst pt_total_sgst pt_total_cess pt_total].
  change (@of_int Q _ 0) with 0%Q in H1, H2, H3, H4.
  change (radd (radd (radd s c) g) e) with (s + c + g + e)%Q.
  split_and!.
  - rewrite sumQ_item_totals, H1, H2, H3, H4. ring.
  - rewrite H1. ring.
  - rewrite H2, H3. ring.
  - rewrite sumQ_slab, H2, H3. ring.
  - rewrite H4. ring.
Qed.

(** ** Adding a line to the cart *)

(** A part of the batches holds no more than the batches in stock. *)
Lemma sumZ_filter_le (P : Z * product → Prop) `{∀ x, Decision (P x)} (l : list (Z * product)) :
  sumZ ((λ ir, quantity ir.2) <$> filter P l)
  ≤ sumZ ((λ ir, Z.max 0 (quantity ir.2)) <$> l).
Proof.
  induction l as [| ir l IH]; [done |].
  rewrite filter_cons. case_decide; csimpl; lia.
Qed.

Lemma available_positive_parts name d :
  available name d
  = sumZ ((λ ir, Z.max 0 (quantity ir.2))
            <$> filter (λ ir, Is_true (is_product name ir.2)) (map_to_list (products d))).
Proof.
  unfold available, batch_sum.
  induction (map_to_list (products d)) as [| ir l IH]; [done |].
  rewrite batch_sum_cons, IH, filter_cons. unfold share, in_stock.
  case_decide as Hn.
  - apply Is_true_true in Hn. rewrite Hn. csimpl.
    destruct (0 <? quantity ir.2) eqn:E.
    + apply Z.ltb_lt in E. lia.
    + apply Z.ltb_ge in E. lia.
  - apply Is_true_false in Hn. rewrite Hn. simpl. lia.
Qed.

Section Cart.
Context `{!TableScan} `{!SqlEngine}.

Lemma product_data_spec name d found_name cgst_rate sgst_rate total_quantity :
  product_data name d = Some (found_name, cgst_rate, sgst_rate, total_quantity) →
  total_quantity ≤ available name d
  ∧ ∃ id r, products d !! id = Some r ∧ is_product name r = true
            ∧ found_name = product_name r ∧ cgst_rate = cgst r ∧ sgst_rate = sgst r.
Proof.
  unfold product_data.
  destruct (scan (filter (λ ir, Is_true (is_product name ir.2)) (map_to_list (products d))))
    as [| first rest] eqn:Hscan; [done |].
  intros Hsome. injection Hsome as <- <- <- <-. split.
  - etrans; [apply sumZ_filter_le |].
    rewrite <- Hscan, scan_Permutation. by rewrite available_positive_parts.
  - assert (first ∈ filter (λ ir, Is_true (is_product name ir.2)) (map_to_list (products d)))
      as Hin.
    { rewrite <- (scan_Permutation _), Hscan. apply list_elem_of_here. }
    apply list_elem_of_filter in Hin as [Hname Hin]. destruct first as [id r].
    apply elem_of_map_to_list in Hin. apply Is_true_true in Hname.
    exists id, r. by repeat split.
Qed.


(** X20. [add_billing_item] either appends one line to the cart or
    leaves the cart as it was. The line it appends carries the product
    name as typed, the quantity and the price given and the CGST and SGST
    rates of one batch of that product, and no CESS rate; the amounts shown
    are those of that line; the name is not empty and the quantity is no
    more than what [update_stock] finds available. An empty name is
    refused, and so is a product that has no batch. The database is only
    read. *)
Theorem add_billing_item_cart name qty price cart c :
  match add_billing_item name qty price cart c with
  | (ItemAdded item line, cart') =>
      cart' = (cart ++ [item])%list
      ∧ name ≠ ""
      ∧ ci_product_name item = name
      ∧ ci_quantity item = qty
      ∧ ci_unit_price item = price
      ∧ line = line_of item
      ∧ qty ≤ available name (view c)
      ∧ ∃ id r, products (view c) !! id = Some r ∧ is_product name r = true
                ∧ ci_cgst item = cgst r ∧ ci_sgst item = sgst r
  | (FillAllFields, cart') => cart' = cart ∧ name = ""
  | (ProductNotFound, cart') =>
      cart' = cart ∧ ∀ id r, products (view c) !! id = Some r → is_product name r = false
  | (NotEnoughStock total_quantity, cart') => cart' = cart ∧ total_quantity < qty
  | (RateIsNull, cart') => cart' = cart
  end.
Proof.
  unfold add_billing_item. destruct (String.eqb name "") eqn:Hname.
  { apply String.eqb_eq in Hname. done. }
  apply String.eqb_neq in Hname.
  destruct (product_data name (view c)) as [[[[found cgst_rate] sgst_rate] total] |] eqn:Hdata.
  - destruct (product_data_spec _ _ _ _ _ _ Hdata) as (Htotal & id & r & Hr & Hn & _ & -> & ->).
    destruct (total <? qty) eqn:E.
    { apply Z.ltb_lt in E. done. }
    apply Z.ltb_ge in E.
    destruct (PrimFloat.is_nan (cgst r) || PrimFloat.is_nan (sgst r)); [done |].
    split_and!; try done; [lia |]. exists id, r. done.
  - split; [done |]. intros id r Hr.
    destruct (is_product name r) eqn:Hn; [| done]. exfalso.
    unfold product_data in Hdata.
    assert ((id, r) ∈ scan (filter (λ ir, Is_true (is_product name ir.2))
                              (map_to_list (products (view c))))) as Hin.
    { rewrite scan_Permutation. apply list_elem_of_filter. split.
      - simpl. by apply Is_true_true.
      - by apply elem_of_map_to_list. }
    destruct (scan (filter (λ ir, Is_true (is_product name ir.2))
                      (map_to_list (products (view c))))); [| done].
    by apply not_elem_of_nil in Hin.
Qed.


End Cart.


(** ** The settings row of the year *)

(** X22. The settings row that [setup_database] inserts for the current
    year holds what the readers assume when the row is missing: the
    initialisation changes neither the number the sequencer issues next,
    nor the threshold [load_products] reads, nor any row that was there;
    run twice it does nothing more. After it the year has a row, so a
    threshold set in that year is stored. *)
Theorem initialize_settings_invisible year d :
  initialize_settings year (initialize_settings year d) = initialize_settings year d
  ∧ is_Some (settings (initialize_settings year d) !! year)
  ∧ (∀ y s, settings d !! y = Some s → settings (initialize_settings year d) !! y = Some s)
  ∧ companies (initialize_settings year d) = companies d
  ∧ products (initialize_settings year d) = products d
  ∧ billing (initialize_settings year d) = billing d
  ∧ bill_items (initialize_settings year d) = bill_items d
  ∧ (∀ now_y now_m now_d,
       next_invoice_number now_y now_m now_d (initialize_settings year d)
       = next_invoice_number now_y now_m now_d d)
  ∧ (∀ now, (read_low_stock_threshold now (idle (initialize_settings year d))).1
            = (read_low_stock_threshold now (idle d)).1)
  ∧ (∀ t now d', t ≠ 0 → dt_year now = year →
       set_low_stock_threshold (Some t) now (idle (initialize_settings year d))
       = (Ok (), idle d') →
       (read_low_stock_threshold now (idle d')).1 = Ok t).
Proof.
  assert (∀ y, default 0 (last_invoice_number <$> settings (initialize_settings year d) !! y)
               = default 0 (last_invoice_number <$> settings d !! y)
               ∧ default 5 (low_stock_threshold <$> settings (initialize_settings year d) !! y)
                 = default 5 (low_stock_threshold <$> settings d !! y)) as Hdefaults.
  { intros y. unfold initialize_settings.
    destruct (settings d !! year) as [s |] eqn:Hs; [done |]. simpl.
    destruct (decide (y = year)) as [-> |].
    - by rewrite lookup_insert_eq, Hs.
    - by rewrite lookup_insert_ne. }
  assert (is_Some (settings (initialize_settings year d) !! year)) as Hrow.
  { unfold initialize_settings. destruct (settings d !! year) as [s |] eqn:Hs.
    - by rewrite Hs.
    - simpl. rewrite lookup_insert_eq. by eexists. }
  split_and!.
  - destruct Hrow as [s Hs]. unfold initialize_settings at 1. by rewrite Hs.
  - exact Hrow.
  - intros y s Hy. unfold initialize_settings.
    destruct (settings d !! year) as [s' |] eqn:Hs; [done |]. simpl.
    rewrite lookup_insert_ne; [done |]. intros <-. congruence.
  - unfold initialize_settings. by destruct (settings d !! year).
  - unfold initialize_settings. by destruct (settings d !! year).
  - unfold initialize_settings. by destruct (settings d !! year).
  - unfold initialize_settings. by destruct (settings d !! year).
  - intros now_y now_m now_d. unfold next_invoice_number.
    by destruct (Hdefaults (dt_year now_y)) as [-> _].
  - intros now. unfold read_low_stock_threshold, query.
    change (view (idle (initialize_settings year d))) with (initialize_settings year d).
    change (view (idle d)) with d. cbn [fst].
    by destruct (Hdefaults (dt_year now)) as [_ ->].
  - intros t now d' Ht Hyear Hset. unfold set_low_stock_threshold in Hset.
    assert ((t =? 0) = false) as Hz by (by apply Z.eqb_neq). rewrite Hz in Hset.
    unfold read_low_stock_threshold, query.
    injection Hset as <-. simpl. rewrite Hyear, lookup_alter_eq.
    change (view (idle (initialize_settings year d))) with (initialize_settings year d).
    destruct Hrow as [s Hs]. by rewrite Hs.
Qed.

(** ** Customers *)

Section Customers.
Context `{!TableScan}.

(** X23. [add_customer] commits what the connection had pending and adds
    one customer under a new id, its name formatted by [format_name].
    [get_customers] then lists the names it listed before and the new one,
    in ascending order; [get_customer_address] returns the empty string
    for a name that is not listed, and the address just given for the new
    name when no earlier customer bears it. *)
Theorem add_customer_listed name address gst_number contact c customers :
  let c' := (add_customer name address gst_number contact c customers).1 in
  let customers' := (add_customer name address gst_number contact c customers).2 in
  c' = idle (view c)
  ∧ customers !! next_rowid customers = None
  ∧ (∀ id cu, customers !! id = Some cu → customers' !! id = Some cu)
  ∧ get_customers customers' ≡ₚ format_name name :: get_customers customers
  ∧ Sorted date_le (get_customers customers')
  ∧ (∀ other, other ∉ get_customers customers' →
       get_customer_address other customers' = "")
  ∧ (format_name name ∉ get_customers customers →
     get_customer_address (format_name name) customers' = address).
Proof.
  intros c' customers'. subst c' customers'. unfold add_customer. simpl.
  pose proof (next_rowid_fresh customers) as Hfresh.
  set (id := next_rowid customers) in *.
  set (cu := {| cu_name := format_name name; cu_address := address;
                cu_gst_number := gst_number; cu_contact := contact |}).
  assert (∀ n t, n ∈ get_customers t ↔ ∃ i x, t !! i = Some x ∧ cu_name x = n) as Hlisted.
  { intros n t. unfold get_customers. rewrite merge_sort_Permutation, list_elem_of_fmap.
    split.
    - intros ([i x] & -> & Hin). apply elem_of_map_to_list in Hin. eauto.
    - intros (i & x & Hx & <-). exists (i, x). split; [done |].
      by apply elem_of_map_to_list. }
  assert (∀ n t, n ∉ get_customers t → get_customer_address n t = "") as Hmissing.
  { intros n t Hn. unfold get_customer_address.
    destruct (scan (filter (λ ir, cu_name ir.2 = n) (map_to_list t)))
      as [| [i x] rest] eqn:Hscan; [done |]. exfalso. apply Hn.
    assert ((i, x) ∈ filter (λ ir, cu_name ir.2 = n) (map_to_list t)) as Hin.
    { rewrite <- (scan_Permutation _), Hscan. apply list_elem_of_here. }
    apply list_elem_of_filter in Hin as [Hname Hin]. apply elem_of_map_to_list in Hin.
    apply Hlisted. eauto. }
  split_and!.
  - done.
  - exact Hfresh.
  - intros i x Hx. rewrite lookup_insert_ne; [done |]. intros <-. congruence.
  - unfold get_customers. rewrite !merge_sort_Permutation.
    rewrite map_to_list_insert by done. done.
  - apply (Sorted_merge_sort date_le).
  - intros other. apply Hmissing.
  - intros Hnew. unfold get_customer_address.
    assert (filter (λ ir, cu_name ir.2 = format_name name)
              (map_to_list (<[id := cu]> customers)) ≡ₚ [(id, cu)]) as Hone.
    { rewrite map_to_list_insert by done. rewrite filter_cons_True by done.
      assert (∀ l : list (Z * customer),
                (∀ ir, ir ∈ l → cu_name ir.2 ≠ format_name name) →
                filter (λ ir : Z * customer, cu_name ir.2 = format_name name) l = [])
        as Hnone.
      { induction l as [| ir l IH]; intros Hl; [done |].
        rewrite filter_cons_False by (apply Hl; by left).
        apply IH. intros ir' Hin. apply Hl. by right. }
      rewrite Hnone; [done |]. intros [i x] Hin Hname. apply Hnew.
      apply elem_of_map_to_list in Hin. apply Hlisted. eauto. }
    destruct (scan (filter (λ ir, cu_name ir.2 = format_name name)
                      (map_to_list (<[id := cu]> customers)))) as [| first rest] eqn:Hscan.
    + rewrite <- (scan_Permutation _), Hscan in Hone. by apply Permutation_nil_cons in Hone.
    + rewrite <- (scan_Permutation _), Hscan in Hone.
      apply Permutation_singleton_r in Hone. by injection Hone as -> ->.
Qed.

End Customers.
